(** * socceraction.spadl.kloppy: Kloppy events to SPADL actions

    A shallow embedding of [socceraction/spadl/kloppy.py] and the properties
    of its event classifier, end-location resolver and action assembler.

    Conventions of the embedding:
    - Python enum members are constructors of inductive types, one module per
      enum so that [PassResult.COMPLETE] and [TakeOnResult.COMPLETE] stay
      apart as they do in Kloppy;
    - [None] is [None]; an attribute that may be absent is an [option];
    - finite floats (timestamps, coordinates) are rationals: the converter
      only copies and compares them;
    - a raised exception is the [Raise] constructor of [result];
    - the vocabulary tables of [spadl/config.py], Kloppy's [transform], and
      the collaborators [_add_dribbles] and [SPADLSchema] are not part of the
      converter: they are variables of the section that holds the pipeline. *)

From Stdlib Require Import List String Bool Arith ZArith QArith Lia.
From Stdlib Require Import Sorting.Permutation Sorting.Sorted.
Import ListNotations.

Local Open Scope string_scope.
Local Open Scope list_scope.

(* ------------------------------------------------------------------ *)
(** ** Exceptions *)

Inductive exn : Type :=
| ImportError (msg : string)
| KeyError (key : string)
| ValueError (what : string)
| SchemaError.

Inductive result (A : Type) : Type :=
| Ok (a : A)
| Raise (e : exn).

Arguments Ok {A} a.
Arguments Raise {A} e.

Definition bind {A B : Type} (c : result A) (k : A -> result B) : result B :=
  match c with
  | Ok a => k a
  | Raise e => Raise e
  end.

Notation "x <- c ;; k" := (bind c (fun x => k))
  (at level 61, c at next level, right associativity).

(** A [for] loop whose body may raise: the first exception ends the loop. *)
Fixpoint mapM {A B : Type} (f : A -> result B) (l : list A) : result (list B) :=
  match l with
  | [] => Ok []
  | a :: l' => b <- f a ;; bs <- mapM f l' ;; Ok (b :: bs)
  end.

(* ------------------------------------------------------------------ *)
(** ** The Kloppy domain, as far as the converter reads it *)

Module EventType.
Inductive t : Type :=
| GENERIC | PASS | SHOT | TAKE_ON | CARRY | RECOVERY | FOUL_COMMITTED
| SUBSTITUTION | CARD | PLAYER_ON | PLAYER_OFF | BALL_OUT | FORMATION_CHANGE.

Definition eqb (a b : t) : bool :=
  match a, b with
  | GENERIC, GENERIC | PASS, PASS | SHOT, SHOT | TAKE_ON, TAKE_ON
  | CARRY, CARRY | RECOVERY, RECOVERY | FOUL_COMMITTED, FOUL_COMMITTED
  | SUBSTITUTION, SUBSTITUTION | CARD, CARD | PLAYER_ON, PLAYER_ON
  | PLAYER_OFF, PLAYER_OFF | BALL_OUT, BALL_OUT
  | FORMATION_CHANGE, FORMATION_CHANGE => true
  | _, _ => false
  end.
End EventType.

Module PassResult.
Inductive t : Type := COMPLETE | INCOMPLETE | OUT | OFFSIDE.

Definition eqb (a b : t) : bool :=
  match a, b with
  | COMPLETE, COMPLETE | INCOMPLETE, INCOMPLETE | OUT, OUT
  | OFFSIDE, OFFSIDE => true
  | _, _ => false
  end.
End PassResult.

Module ShotResult.
Inductive t : Type := GOAL | OFF_TARGET | POST | BLOCKED | SAVED | OWN_GOAL.

Definition eqb (a b : t) : bool :=
  match a, b with
  | GOAL, GOAL | OFF_TARGET, OFF_TARGET | POST, POST | BLOCKED, BLOCKED
  | SAVED, SAVED | OWN_GOAL, OWN_GOAL => true
  | _, _ => false
  end.
End ShotResult.

Module TakeOnResult.
Inductive t : Type := COMPLETE | INCOMPLETE | OUT.

Definition eqb (a b : t) : bool :=
  match a, b with
  | COMPLETE, COMPLETE | INCOMPLETE, INCOMPLETE | OUT, OUT => true
  | _, _ => false
  end.
End TakeOnResult.

Module SetPieceType.
Inductive t : Type :=
| GOAL_KICK | FREE_KICK | THROW_IN | CORNER_KICK | PENALTY | KICK_OFF.
End SetPieceType.

Module PassType.
Inductive t : Type :=
| CROSS | HAND_PASS | HEAD_PASS | HIGH_PASS | LAUNCH | SIMPLE_PASS
| SMART_PASS | LONG_BALL | THROUGH_BALL | CHIPPED_PASS | FLICK_ON
| ASSIST | ASSIST_2ND | SWITCH_OF_PLAY.
End PassType.

Module BodyPart.
Inductive t : Type :=
| RIGHT_FOOT | LEFT_FOOT | HEAD | BOTH_HANDS | CHEST | LEFT_HAND
| RIGHT_HAND | DROP_KICK | KEEPER_ARM | OTHER | NO_TOUCH.
End BodyPart.

(** The value of a qualifier: a member of one of Kloppy's tag enums.  Members
    of different enums are never equal; tags of an enum the converter does
    not name are kept under their name. *)
Inductive QualifierValue : Type :=
| QSetPiece (v : SetPieceType.t)
| QPassType (v : PassType.t)
| QBodyPart (v : BodyPart.t)
| QOther (enum_name value_name : string).

Definition QualifierValue_eq_dec (a b : QualifierValue) : {a = b} + {a <> b}.
Proof.
  decide equality; try apply string_dec;
    decide equality.
Defined.

(** Python's [v in qualifiers] on a list. *)
Definition contains (v : QualifierValue) (qs : list QualifierValue) : bool :=
  existsb (fun q => if QualifierValue_eq_dec v q then true else false) qs.

Module Point.
Record t : Type := { x : Q; y : Q }.
End Point.

Module Team.
Record t : Type := { team_id : string }.
End Team.

Module Player.
Record t : Type := { player_id : string }.
End Player.

Module Period.
Record t : Type := { id : Z }.
End Period.

(** The class of an event with the attributes only that class has. *)
Inductive EventBody : Type :=
| GenericEvent
| PassEvent (result : option PassResult.t) (receiver_coordinates : option Point.t)
| ShotEvent (result : option ShotResult.t) (result_coordinates : option Point.t)
| TakeOnEvent (result : option TakeOnResult.t)
| CarryEvent (end_coordinates : option Point.t)
| RecoveryEvent
| FoulCommittedEvent
| SubstitutionEvent
| CardEvent
| PlayerOnEvent
| PlayerOffEvent
| BallOutEvent
| FormationChangeEvent.

Record Event : Type := {
  event_id : string;
  period : Period.t;
  timestamp : Q;
  team : option Team.t;
  player : option Player.t;
  coordinates : option Point.t;
  qualifiers : option (list QualifierValue);
  body : EventBody
}.

(** [event.event_type] is a class attribute in Kloppy: the class fixes it. *)
Definition event_type (event : Event) : EventType.t :=
  match body event with
  | GenericEvent => EventType.GENERIC
  | PassEvent _ _ => EventType.PASS
  | ShotEvent _ _ => EventType.SHOT
  | TakeOnEvent _ => EventType.TAKE_ON
  | CarryEvent _ => EventType.CARRY
  | RecoveryEvent => EventType.RECOVERY
  | FoulCommittedEvent => EventType.FOUL_COMMITTED
  | SubstitutionEvent => EventType.SUBSTITUTION
  | CardEvent => EventType.CARD
  | PlayerOnEvent => EventType.PLAYER_ON
  | PlayerOffEvent => EventType.PLAYER_OFF
  | BallOutEvent => EventType.BALL_OUT
  | FormationChangeEvent => EventType.FORMATION_CHANGE
  end.

(** [event.result] read by a mapper of the matching class. *)
Definition pass_result (event : Event) : option PassResult.t :=
  match body event with PassEvent r _ => r | _ => None end.

Definition shot_result (event : Event) : option ShotResult.t :=
  match body event with ShotEvent r _ => r | _ => None end.

Definition take_on_result (event : Event) : option TakeOnResult.t :=
  match body event with TakeOnEvent r => r | _ => None end.

(** [event.result == member], and [event.result in [m1, m2]]. *)
Definition pass_result_is (event : Event) (m : PassResult.t) : bool :=
  match pass_result event with Some r => PassResult.eqb r m | None => false end.

Definition shot_result_is (event : Event) (m : ShotResult.t) : bool :=
  match shot_result event with Some r => ShotResult.eqb r m | None => false end.

Definition take_on_result_is (event : Event) (m : TakeOnResult.t) : bool :=
  match take_on_result event with
  | Some r => TakeOnResult.eqb r m
  | None => false
  end.

(* ------------------------------------------------------------------ *)
(** ** The classifier: one mapper per event kind *)

Definition _qualifiers (event : Event) : list QualifierValue :=
  match qualifiers event with
  | Some (q :: qs) => q :: qs
  | _ => []
  end.

Definition _parse_event_as_non_action (event : Event) : string * string * string :=
  let a := "non_action" in
  let r := "success" in
  let b := "foot" in
  (a, r, b).

Definition _parse_pass_event (event : Event) : string * string * string :=
  let qualifiers := _qualifiers event in
  let a :=
    if contains (QSetPiece SetPieceType.FREE_KICK) qualifiers then
      if contains (QPassType PassType.CHIPPED_PASS) qualifiers
         || contains (QPassType PassType.CROSS) qualifiers
         || contains (QPassType PassType.HIGH_PASS) qualifiers
      then "freekick_crossed"
      else "freekick_short"
    else if contains (QSetPiece SetPieceType.CORNER_KICK) qualifiers then
      if contains (QPassType PassType.CHIPPED_PASS) qualifiers
         || contains (QPassType PassType.CROSS) qualifiers
         || contains (QPassType PassType.HIGH_PASS) qualifiers
      then "corner_crossed"
      else "corner_short"
    else if contains (QSetPiece SetPieceType.GOAL_KICK) qualifiers then "goalkick"
    else if contains (QSetPiece SetPieceType.THROW_IN) qualifiers then "throw_in"
    else if contains (QPassType PassType.CROSS) qualifiers then "cross"
    else "pass" in
  let r :=
    if pass_result_is event PassResult.INCOMPLETE
       || pass_result_is event PassResult.OUT
    then "fail"
    else if pass_result_is event PassResult.OFFSIDE then "offside"
    else "success" in
  let b :=
    if contains (QBodyPart BodyPart.HEAD) qualifiers then "head"
    else if contains (QBodyPart BodyPart.RIGHT_FOOT) qualifiers
            || contains (QBodyPart BodyPart.LEFT_FOOT) qualifiers
    then "foot"
    else if contains (QBodyPart BodyPart.CHEST) qualifiers
            || contains (QBodyPart BodyPart.OTHER) qualifiers
    then "other"
    else "foot" in
  (a, r, b).

Definition _parse_shot_event (event : Event) : string * string * string :=
  let qualifiers := _qualifiers event in
  let a :=
    if contains (QSetPiece SetPieceType.FREE_KICK) qualifiers then "shot_freekick"
    else if contains (QSetPiece SetPieceType.PENALTY) qualifiers then "shot_penalty"
    else "shot" in
  let '(a, r) :=
    if shot_result_is event ShotResult.GOAL then (a, "success")
    else if shot_result_is event ShotResult.OWN_GOAL then ("bad_touch", "own_goal")
    else (a, "fail") in
  let b :=
    if contains (QBodyPart BodyPart.HEAD) qualifiers then "head"
    else if contains (QBodyPart BodyPart.RIGHT_FOOT) qualifiers
            || contains (QBodyPart BodyPart.LEFT_FOOT) qualifiers
            || contains (QBodyPart BodyPart.DROP_KICK) qualifiers
    then "foot"
    else "other" in
  (a, r, b).

Definition _parse_dribble_event (event : Event) : string * string * string :=
  let a := "take_on" in
  let r := if take_on_result_is event TakeOnResult.COMPLETE
           then "success" else "fail" in
  let b := "foot" in
  (a, r, b).

Definition _parse_carry_event (_e : Event) : string * string * string :=
  let a := "dribble" in
  let r := "success" in
  let b := "foot" in
  (a, r, b).

Definition _parse_interception_event (event : Event) : string * string * string :=
  let a := "interception" in
  let r := "success" in
  let b := "foot" in
  (a, r, b).

Definition _parse_foul_event (event : Event) : string * string * string :=
  let a := "foul" in
  let r := "success" in
  let b := "foot" in
  (a, r, b).

(** The dispatch table of [_parse_event], as the dict literal has it, and
    [dict.get] with a default. *)
Definition events : list (EventType.t * (Event -> string * string * string)) :=
  [ (EventType.GENERIC, _parse_event_as_non_action);
    (EventType.PASS, _parse_pass_event);
    (EventType.SHOT, _parse_shot_event);
    (EventType.TAKE_ON, _parse_dribble_event);
    (EventType.CARRY, _parse_carry_event);
    (EventType.RECOVERY, _parse_interception_event) ].

Fixpoint dict_get {V : Type} (d : list (EventType.t * V)) (k : EventType.t)
    (default : V) : V :=
  match d with
  | [] => default
  | (k', v) :: d' => if EventType.eqb k' k then v else dict_get d' k default
  end.

Definition has_key {V : Type} (d : list (EventType.t * V)) (k : EventType.t) : bool :=
  existsb (fun kv => EventType.eqb (fst kv) k) d.

Definition parser (event : Event) : Event -> string * string * string :=
  dict_get events (event_type event) _parse_event_as_non_action.

(** [list.index]: the position of the first occurrence, [ValueError] when
    there is none. *)
Fixpoint index (name : string) (table : list string) : result nat :=
  match table with
  | [] => Raise (ValueError name)
  | s :: table' =>
      if String.eqb s name then Ok 0%nat
      else i <- index name table' ;; Ok (S i)
  end.

(* ------------------------------------------------------------------ *)
(** ** The location resolver *)

(** The two entries [end_x], [end_y] of the dict [_get_end_location] returns.
    A [Point] object is truthy, so [if event.coordinates] tests for [None]. *)
Definition _get_end_location (event : Event) : option Q * option Q :=
  let fallback :=
    match coordinates event with
    | Some c => (Some (Point.x c), Some (Point.y c))
    | None => (None, None)
    end in
  match body event with
  | PassEvent (Some PassResult.COMPLETE) receiver_coordinates =>
      match receiver_coordinates with
      | Some rc => (Some (Point.x rc), Some (Point.y rc))
      | None => fallback
      end
  | CarryEvent end_coordinates =>
      match end_coordinates with
      | Some ec => (Some (Point.x ec), Some (Point.y ec))
      | None => fallback
      end
  | ShotEvent _ result_coordinates =>
      match result_coordinates with
      | Some rc => (Some (Point.x rc), Some (Point.y rc))
      | None => fallback
      end
  | _ => fallback
  end.

(* ------------------------------------------------------------------ *)
(** ** Stable sorting

    [DataFrame.sort_values] with several columns orders the rows through
    pandas' lexsort indexer, which is stable.  The stable arrangement of a
    list under a total preorder is unique, so insertion from the right, which
    puts a row before the rows it ties with that came after it, computes the
    same table. *)

Section StableSort.
Context {A : Type}.
Variable leb : A -> A -> bool.

Fixpoint insert (a : A) (l : list A) : list A :=
  match l with
  | [] => [a]
  | b :: l' => if leb a b then a :: b :: l' else b :: insert a l'
  end.

Fixpoint stable_sort (l : list A) : list A :=
  match l with
  | [] => []
  | a :: l' => insert a (stable_sort l')
  end.

(** Two rows tie when neither sorts strictly before the other. *)
Definition ties (a b : A) : bool := leb a b && leb b a.
End StableSort.

(* ------------------------------------------------------------------ *)
(** ** Datasets and coordinate systems *)

Module Orientation.
Inductive t : Type :=
| BALL_OWNING_TEAM | ACTION_EXECUTING_TEAM | HOME_TEAM | AWAY_TEAM
| FIXED_HOME_AWAY | FIXED_AWAY_HOME | NOT_SET.
End Orientation.

Module Origin.
Inductive t : Type := TOP_LEFT | BOTTOM_LEFT | CENTER.
End Origin.

Module VerticalOrientation.
Inductive t : Type := TOP_TO_BOTTOM | BOTTOM_TO_TOP.
End VerticalOrientation.

Record Dimension : Type := { dim_min : Q; dim_max : Q }.

Record PitchDimensions : Type := { x_dim : Dimension; y_dim : Dimension }.

Record CoordinateSystem : Type := {
  normalized : bool;
  provider : string;
  origin : Origin.t;
  vertical_orientation : VerticalOrientation.t;
  pitch_dimensions : PitchDimensions
}.

Module EventDataset.
Record t : Type := {
  orientation : Orientation.t;
  coordinate_system : CoordinateSystem;
  events : list Event
}.
End EventDataset.

(* ------------------------------------------------------------------ *)
(** ** Action records *)

(** The dict built for one event: the columns of the provisional frame. *)
Record Action : Type := {
  game_id : Z;
  original_event_id : string;
  period_id : Z;
  time_seconds : Q;
  team_id : option string;
  player_id : option string;
  start_x : option Q;
  start_y : option Q;
  end_x : option Q;
  end_y : option Q;
  type_id : nat;
  result_id : nat;
  bodypart_id : nat
}.

(** A row of the frame once the [action_id] column has been set. *)
Record ActionRow : Type := {
  action : Action;
  action_id : nat
}.

(** The order of [sort_values(["game_id", "period_id", "time_seconds"])]:
    columns compared left to right. *)
Definition key_leb (a b : Action) : bool :=
  if (game_id a <? game_id b)%Z then true
  else if (game_id b <? game_id a)%Z then false
  else if (period_id a <? period_id b)%Z then true
  else if (period_id b <? period_id a)%Z then false
  else Qle_bool (time_seconds a) (time_seconds b).

(** Equal values in the three key columns. *)
Definition same_key (a b : Action) : bool :=
  (game_id a =? game_id b)%Z
  && (period_id a =? period_id b)%Z
  && Qeq_bool (time_seconds a) (time_seconds b).

(** [pd.DataFrame(actions).sort_values(by).reset_index(drop=True)].  A frame
    built from an empty list of dicts has no columns, and [sort_values]
    raises [KeyError] on the first missing label. *)
Definition sort_values (actions : list Action) : result (list Action) :=
  match actions with
  | [] => Raise (KeyError "game_id")
  | _ :: _ => Ok (stable_sort key_leb actions)
  end.

(** [actions["action_id"] = range(len(actions))]: positional assignment. *)
Definition set_action_id (actions : list Action) : list ActionRow :=
  map (fun ia => {| action := snd ia; action_id := fst ia |})
      (combine (seq 0 (List.length actions)) actions).

(* ------------------------------------------------------------------ *)
(** ** The conversion pipeline *)

Section Pipeline.
(** [spadlconfig.actiontypes], [spadlconfig.results],
    [spadlconfig.bodyparts], [spadlconfig.field_length] and
    [spadlconfig.field_width]. *)
Variables actiontypes results bodyparts : list string.
Variables field_length field_width : Q.

(** [EventDataset.transform(to_orientation, to_coordinate_system)]. *)
Variable transform :
  Orientation.t -> CoordinateSystem -> EventDataset.t -> EventDataset.t.

(** [base._add_dribbles] and the validation [DataFrame[SPADLSchema]]. *)
Variable _add_dribbles : list ActionRow -> list ActionRow.
Variable SPADLSchema : list ActionRow -> result (list ActionRow).

(** The module flag set by the guarded import of Kloppy. *)
Variable _has_kloppy : bool.

Definition _SoccerActionCoordinateSystem (normalized : bool) : CoordinateSystem :=
  {| normalized := normalized;
     provider := "SoccerAction";
     origin := Origin.BOTTOM_LEFT;
     vertical_orientation := VerticalOrientation.BOTTOM_TO_TOP;
     pitch_dimensions :=
       {| x_dim := {| dim_min := 0; dim_max := field_length |};
          y_dim := {| dim_min := 0; dim_max := field_width |} |} |}.

(** The three entries [type_id], [result_id], [bodypart_id]. *)
Definition _parse_event (event : Event) : result (nat * nat * nat) :=
  let '(a, r, b) := parser event event in
  type_id <- index a actiontypes ;;
  result_id <- index r results ;;
  bodypart_id <- index b bodyparts ;;
  Ok (type_id, result_id, bodypart_id).

(** The body of the loop over [new_dataset.events]. *)
Definition make_action (event : Event) : result Action :=
  let end_location := _get_end_location event in
  ids <- _parse_event event ;;
  Ok {| game_id := 0;
        original_event_id := event_id event;
        period_id := Period.id (period event);
        time_seconds := timestamp event;
        team_id := match team event with
                   | Some t => Some (Team.team_id t)
                   | None => None
                   end;
        player_id := match player event with
                     | Some p => Some (Player.player_id p)
                     | None => None
                     end;
        start_x := match coordinates event with
                   | Some c => Some (Point.x c)
                   | None => None
                   end;
        start_y := match coordinates event with
                   | Some c => Some (Point.y c)
                   | None => None
                   end;
        end_x := fst end_location;
        end_y := snd end_location;
        type_id := fst (fst ids);
        result_id := snd (fst ids);
        bodypart_id := snd ids |}.

(** The loop, the sort, the non-action filter and the identifiers: the
    table handed to [_add_dribbles]. *)
Definition assemble (events : list Event) : result (list ActionRow) :=
  actions <- mapM make_action events ;;
  actions <- sort_values actions ;;
  non_action <- index "non_action" actiontypes ;;
  let actions := filter (fun a => negb (type_id a =? non_action)%nat) actions in
  Ok (set_action_id actions).

Definition convert_to_actions (dataset : EventDataset.t) (home_team_id : Z)
  : result (list ActionRow) :=
  if negb _has_kloppy then
    Raise (ImportError "Kloppy is required. Install with `pip install kloppy`.")
  else
    let new_dataset :=
      transform Orientation.FIXED_HOME_AWAY
                (_SoccerActionCoordinateSystem false) dataset in
    actions <- assemble (EventDataset.events new_dataset) ;;
    let actions := _add_dribbles actions in
    SPADLSchema actions.
End Pipeline.

(* ------------------------------------------------------------------ *)
(** ** Vocabulary of the statements *)

(** The event carries the tag [v]. *)
Definition has_tag (event : Event) (v : QualifierValue) : Prop :=
  In v (_qualifiers event).

(** One of the tags that turn a set piece into its crossed variant. *)
Definition crossed_tags (event : Event) : Prop :=
  has_tag event (QPassType PassType.CHIPPED_PASS)
  \/ has_tag event (QPassType PassType.CROSS)
  \/ has_tag event (QPassType PassType.HIGH_PASS).

(** One of the kind-specific end-location rules applies: a completed pass
    with a known receiver location, a carry with a known end location, or a
    shot with a known outcome location. *)
Definition kind_rule_applies (event : Event) : Prop :=
  (exists rc, body event = PassEvent (Some PassResult.COMPLETE) (Some rc))
  \/ (exists ec, body event = CarryEvent (Some ec))
  \/ (exists r rc, body event = ShotEvent r (Some rc)).

Definition triple_type (t : string * string * string) : string := fst (fst t).
Definition triple_result (t : string * string * string) : string := snd (fst t).
Definition triple_bodypart (t : string * string * string) : string := snd t.

(** The order on (period, timestamp) alone. *)
Definition period_time_leb (a b : Action) : bool :=
  if (period_id a <? period_id b)%Z then true
  else if (period_id b <? period_id a)%Z then false
  else Qle_bool (time_seconds a) (time_seconds b).

Definition key_le (a b : Action) : Prop := key_leb a b = true.

(** The test of the non-action filter. *)
Definition retained (non_action : nat) (a : Action) : bool :=
  negb (type_id a =? non_action)%nat.

(** Modelled from the spec: the vocabulary tables of [spadl/config.py], which
    the converter reads through [.index] and which are not part of this file.
    The spec (section 6) lists the members; they are written here under the
    names the mappers return, in the order of the spec. *)
Definition spadl_actiontypes : list string :=
  [ "pass"; "cross"; "throw_in"; "freekick_short"; "freekick_crossed";
    "corner_short"; "corner_crossed"; "goalkick"; "shot"; "shot_freekick";
    "shot_penalty"; "take_on"; "dribble"; "interception"; "bad_touch";
    "foul"; "non_action" ].

(** Modelled from the spec: [spadlconfig.results] (section 6). *)
Definition spadl_results : list string :=
  [ "success"; "fail"; "offside"; "own_goal" ].

(** Modelled from the spec: [spadlconfig.bodyparts] (section 6). *)
Definition spadl_bodyparts : list string := [ "foot"; "head"; "other" ].

(** A dataset that is already in the target orientation and coordinates. *)
Definition transform_id (_ : Orientation.t) (_ : CoordinateSystem)
    (d : EventDataset.t) : EventDataset.t := d.

Definition no_dribbles (t : list ActionRow) : list ActionRow := t.
Definition schema_accepts (t : list ActionRow) : result (list ActionRow) := Ok t.

(** *** Sample events *)

Definition mk_event (eid : string) (p : Z) (t : Q) (c : option Point.t)
    (qs : list QualifierValue) (b : EventBody) : Event :=
  {| event_id := eid;
     period := {| Period.id := p |};
     timestamp := t;
     team := Some {| Team.team_id := "home" |};
     player := None;
     coordinates := c;
     qualifiers := Some qs;
     body := b |}.

Definition pt (px py : Q) : Point.t := {| Point.x := px; Point.y := py |}.

Definition ev_freekick_cross : Event :=
  mk_event "e1" 1 (12 # 1) (Some (pt 30 40))
    [QSetPiece SetPieceType.FREE_KICK; QPassType PassType.CROSS]
    (PassEvent (Some PassResult.COMPLETE) (Some (pt 90 35))).

Definition ev_corner : Event :=
  mk_event "e2" 1 (12 # 1) (Some (pt 105 0))
    [QSetPiece SetPieceType.CORNER_KICK]
    (PassEvent (Some PassResult.INCOMPLETE) None).

Definition ev_own_goal : Event :=
  mk_event "e3" 1 (15 # 2) (Some (pt 100 30))
    [QSetPiece SetPieceType.PENALTY; QBodyPart BodyPart.HEAD]
    (ShotEvent (Some ShotResult.OWN_GOAL) (Some (pt 105 34))).

Definition ev_saved_freekick : Event :=
  mk_event "e4" 2 (3 # 1) (Some (pt 80 30))
    [QSetPiece SetPieceType.FREE_KICK]
    (ShotEvent (Some ShotResult.SAVED) None).

Definition ev_foul : Event :=
  mk_event "e5" 1 (12 # 1) (Some (pt 50 50)) [] FoulCommittedEvent.

Definition ev_substitution : Event :=
  mk_event "e6" 1 (1 # 1) None [] SubstitutionEvent.

Definition ev_carry : Event :=
  mk_event "e7" 1 (12 # 1) (Some (pt 20 20)) [] (CarryEvent (Some (pt 25 22))).

Definition ev_take_on : Event :=
  mk_event "e8" 1 (12 # 1) (Some (pt 60 10)) []
    (TakeOnEvent (Some TakeOnResult.INCOMPLETE)).

Definition sample_events : list Event :=
  [ ev_freekick_cross; ev_foul; ev_corner; ev_own_goal; ev_saved_freekick;
    ev_substitution; ev_carry; ev_take_on ].

Definition sample_dataset (events : list Event) : EventDataset.t :=
  {| EventDataset.orientation := Orientation.FIXED_HOME_AWAY;
     EventDataset.coordinate_system :=
       _SoccerActionCoordinateSystem 105 68 false;
     EventDataset.events := events |}.

(** The assembler and the entry point over the sample configuration. *)
Definition sample_assemble : list Event -> result (list ActionRow) :=
  assemble spadl_actiontypes spadl_results spadl_bodyparts.

Definition sample_convert (has_kloppy : bool) (events : list Event)
    (home_team_id : Z) : result (list ActionRow) :=
  convert_to_actions spadl_actiontypes spadl_results spadl_bodyparts 105 68
    transform_id no_dribbles schema_accepts has_kloppy
    (sample_dataset events) home_team_id.

(** The names the mappers of the dispatch table can return. *)
Definition mapper_types : list string :=
  [ "non_action"; "pass"; "freekick_crossed"; "freekick_short";
    "corner_crossed"; "corner_short"; "goalkick"; "throw_in"; "cross";
    "shot"; "shot_freekick"; "shot_penalty"; "bad_touch"; "take_on";
    "dribble"; "interception" ].

Definition mapper_results : list string :=
  [ "success"; "fail"; "offside"; "own_goal" ].

Definition mapper_bodyparts : list string := [ "foot"; "head"; "other" ].

(** The table assembled from the sample events. *)
Definition sample_provisional : list Action :=
  Eval vm_compute in
    match mapM (make_action spadl_actiontypes spadl_results spadl_bodyparts)
               sample_events with
    | Ok t => t
    | Raise _ => []
    end.

Definition sample_table : list ActionRow :=
  Eval vm_compute in
    match sample_assemble sample_events with
    | Ok t => t
    | Raise _ => []
    end.

(** The kinds whose mapper returns a type other than non_action. *)
Definition is_action_kind (event : Event) : bool :=
  match event_type event with
  | EventType.PASS | EventType.SHOT | EventType.TAKE_ON | EventType.CARRY
  | EventType.RECOVERY => true
  | _ => false
  end.

(** The types the pass mapper and the shot mapper return. *)
Definition pass_types : list string :=
  [ "pass"; "cross"; "throw_in"; "freekick_crossed"; "freekick_short";
    "corner_crossed"; "corner_short"; "goalkick" ].

Definition shot_types : list string :=
  [ "shot"; "shot_freekick"; "shot_penalty"; "bad_touch" ].

(** The order of the events by (period, timestamp). *)
Definition event_leb (e1 e2 : Event) : bool :=
  if (Period.id (period e1) <? Period.id (period e2))%Z then true
  else if (Period.id (period e2) <? Period.id (period e1))%Z then false
  else Qle_bool (timestamp e1) (timestamp e2).

Definition event_le (e1 e2 : Event) : Prop := event_leb e1 e2 = true.

(** A name a mapper can return that its vocabulary table does not list. *)
Definition missing_name (actiontypes results bodyparts : list string)
    (n : string) : Prop :=
  (In n mapper_types /\ ~ In n actiontypes)
  \/ (In n mapper_results /\ ~ In n results)
  \/ (In n mapper_bodyparts /\ ~ In n bodyparts).

Definition ev_generic : Event :=
  mk_event "e9" 2 (40 # 1) None [] GenericEvent.

Definition ev_headed_pass : Event :=
  mk_event "e10" 2 (41 # 1) (Some (pt 10 10))
    [QBodyPart BodyPart.LEFT_FOOT; QBodyPart BodyPart.HEAD]
    (PassEvent (Some PassResult.OFFSIDE) (Some (pt 40 40))).

Definition ev_recovery : Event :=
  mk_event "e11" 2 (42 # 1) (Some (pt 55 30)) [] RecoveryEvent.

(** The sample events in chronological order. *)
Definition sorted_events : list Event :=
  [ ev_substitution; ev_own_goal; ev_freekick_cross; ev_foul; ev_carry;
    ev_saved_freekick; ev_generic; ev_headed_pass; ev_recovery ].

Definition sorted_table : list ActionRow :=
  Eval vm_compute in
    match sample_assemble sorted_events with
    | Ok t => t
    | Raise _ => []
    end.

(* ================================================================== *)
(** * Properties *)

(** ** The error monad *)

Lemma bind_Ok_inv {A B : Type} (c : result A) (k : A -> result B) (b : B) :
  bind c k = Ok b -> exists a, c = Ok a /\ k a = Ok b.
Proof.
  destruct c as [a|e]; simpl; intros H; [eauto | discriminate].
Qed.

Ltac inv_bind H :=
  let a := fresh "v" in
  let Ha := fresh "Hv" in
  apply bind_Ok_inv in H; destruct H as (a & Ha & H).

Lemma mapM_Ok_cons {A B : Type} (f : A -> result B) (a : A) (l : list A)
    (bs : list B) :
  mapM f (a :: l) = Ok bs ->
  exists b bs', f a = Ok b /\ mapM f l = Ok bs' /\ bs = b :: bs'.
Proof.
  simpl; intros H. inv_bind H. inv_bind H.
  injection H as <-. eauto.
Qed.

Lemma mapM_In {A B : Type} (f : A -> result B) (l : list A) (bs : list B) :
  mapM f l = Ok bs -> forall b, In b bs -> exists a, In a l /\ f a = Ok b.
Proof.
  revert bs; induction l as [|a l IH]; intros bs H b Hb.
  - injection H as <-. destruct Hb.
  - apply mapM_Ok_cons in H. destruct H as (b0 & bs' & Hf & Hl & ->).
    destruct Hb as [<-|Hb].
    + exists a; split; [left; reflexivity | assumption].
    + destruct (IH _ Hl _ Hb) as (a' & Ha' & Hfa').
      exists a'; split; [right; assumption | assumption].
Qed.

Lemma mapM_length {A B : Type} (f : A -> result B) (l : list A) (bs : list B) :
  mapM f l = Ok bs -> List.length bs = List.length l.
Proof.
  revert bs; induction l as [|a l IH]; intros bs H.
  - injection H as <-. reflexivity.
  - apply mapM_Ok_cons in H. destruct H as (b0 & bs' & _ & Hl & ->).
    simpl. f_equal. apply IH, Hl.
Qed.

(** ** Insertion sort is a stable sort *)

Section StableSortFacts.
Context {A : Type}.
Variable leb : A -> A -> bool.
Hypothesis leb_total : forall a b, leb a b = true \/ leb b a = true.
Hypothesis leb_trans :
  forall a b c, leb a b = true -> leb b c = true -> leb a c = true.

Let le (a b : A) : Prop := leb a b = true.

Lemma insert_Permutation (a : A) (l : list A) :
  Permutation (insert leb a l) (a :: l).
Proof.
  induction l as [|b l IH]; simpl.
  - apply Permutation_refl.
  - destruct (leb a b).
    + apply Permutation_refl.
    + eapply perm_trans; [apply perm_skip, IH | apply perm_swap].
Qed.

Lemma stable_sort_Permutation (l : list A) :
  Permutation (stable_sort leb l) l.
Proof.
  induction l as [|a l IH]; simpl.
  - apply perm_nil.
  - eapply perm_trans; [apply insert_Permutation | apply perm_skip, IH].
Qed.

Lemma stable_sort_In (l : list A) (a : A) :
  In a (stable_sort leb l) <-> In a l.
Proof.
  split; apply Permutation_in;
    [ | apply Permutation_sym ]; apply stable_sort_Permutation.
Qed.

Lemma insert_StronglySorted (a : A) (l : list A) :
  StronglySorted le l -> StronglySorted le (insert leb a l).
Proof.
  induction 1 as [|b l Hl IH Hb]; simpl.
  - constructor; constructor.
  - destruct (leb a b) eqn:Hab.
    + constructor; [constructor; assumption|].
      constructor; [exact Hab|].
      rewrite Forall_forall in *. intros c Hc.
      eapply leb_trans; [exact Hab | apply Hb, Hc].
    + constructor; [exact IH|].
      rewrite Forall_forall in *. intros c Hc.
      apply (Permutation_in _ (insert_Permutation a l)) in Hc.
      destruct Hc as [<-|Hc]; [|apply Hb, Hc].
      destruct (leb_total a b) as [H|H]; [congruence | exact H].
Qed.

Lemma stable_sort_StronglySorted (l : list A) :
  StronglySorted le (stable_sort leb l).
Proof.
  induction l as [|a l IH]; simpl.
  - constructor.
  - apply insert_StronglySorted, IH.
Qed.

(** Inserting [a] leaves the rows that tie with [k] in their order, with
    [a] in front of them when it ties with [k] too. *)
Lemma filter_ties_insert (k a : A) (l : list A) :
  filter (ties leb k) (insert leb a l) = filter (ties leb k) (a :: l).
Proof.
  induction l as [|b l IH]; [reflexivity|].
  cbn [insert]. destruct (leb a b) eqn:Hab; [reflexivity|].
  cbn [filter] in *. rewrite IH.
  destruct (ties leb k a) eqn:Hka, (ties leb k b) eqn:Hkb; try reflexivity.
  unfold ties in Hka, Hkb.
  apply andb_true_iff in Hka, Hkb.
  destruct Hka as [_ Hak], Hkb as [Hkb _].
  rewrite (leb_trans _ _ _ Hak Hkb) in Hab. discriminate.
Qed.

Lemma stable_sort_stable (k : A) (l : list A) :
  filter (ties leb k) (stable_sort leb l) = filter (ties leb k) l.
Proof.
  induction l as [|a l IH]; [reflexivity|].
  cbn [stable_sort]. rewrite filter_ties_insert.
  cbn [filter]. rewrite IH. reflexivity.
Qed.
End StableSortFacts.

Lemma StronglySorted_filter {A : Type} (R : A -> A -> Prop) (p : A -> bool)
    (l : list A) :
  StronglySorted R l -> StronglySorted R (filter p l).
Proof.
  induction 1 as [|a l Hl IH Ha]; simpl; [constructor|].
  destruct (p a); [|exact IH].
  constructor; [exact IH|].
  rewrite Forall_forall in *. intros b Hb.
  apply filter_In in Hb. apply Ha, Hb.
Qed.

Lemma filter_filter_comm {A : Type} (p q : A -> bool) (l : list A) :
  filter p (filter q l) = filter (fun a => q a && p a) l.
Proof.
  induction l as [|a l IH]; simpl; [reflexivity|].
  destruct (q a); simpl; [destruct (p a)|]; rewrite IH; reflexivity.
Qed.

Lemma filter_swap {A : Type} (p q : A -> bool) (l : list A) :
  filter p (filter q l) = filter q (filter p l).
Proof.
  rewrite !filter_filter_comm. apply filter_ext.
  intros a. apply andb_comm.
Qed.

(** A row kept by a filter splits the list at that row. *)
Lemma filter_eq_app_cons {A : Type} (p : A -> bool) (l u1 u2 : list A) (a : A) :
  filter p l = u1 ++ a :: u2 ->
  exists m1 m2, l = m1 ++ a :: m2 /\ filter p m1 = u1 /\ filter p m2 = u2.
Proof.
  revert u1; induction l as [|b l IH]; intros u1 H; simpl in H.
  - destruct u1; discriminate.
  - destruct (p b) eqn:Hb.
    + destruct u1 as [|c u1]; simpl in H.
      * injection H as -> H. exists [], l. auto.
      * injection H as -> H. destruct (IH _ H) as (m1 & m2 & -> & H1 & H2).
        exists (c :: m1), m2. simpl. rewrite Hb, H1. auto.
    + destruct (IH _ H) as (m1 & m2 & -> & H1 & H2).
      exists (b :: m1), m2. simpl. rewrite Hb. auto.
Qed.

(** ** The sort key *)

Ltac split_ltb :=
  repeat match goal with
         | |- context [(?a <? ?b)%Z] => destruct (Z.ltb_spec a b)
         | H : context [(?a <? ?b)%Z] |- _ => destruct (Z.ltb_spec a b)
         end.

Lemma key_leb_total (a b : Action) : key_leb a b = true \/ key_leb b a = true.
Proof.
  unfold key_leb. split_ltb; auto; try lia.
  rewrite !Qle_bool_iff.
  destruct (Qlt_le_dec (time_seconds b) (time_seconds a)) as [Hlt|Hle]; auto.
  right. apply Qlt_le_weak, Hlt.
Qed.

Lemma key_leb_trans (a b c : Action) :
  key_leb a b = true -> key_leb b c = true -> key_leb a c = true.
Proof.
  unfold key_leb. intros Hab Hbc.
  split_ltb; try reflexivity; try discriminate; try lia.
  rewrite Qle_bool_iff in *. eapply Qle_trans; eassumption.
Qed.

Lemma same_key_ties (a b : Action) : same_key a b = ties key_leb a b.
Proof.
  unfold same_key, ties, key_leb.
  destruct (Z.eqb_spec (game_id a) (game_id b)) as [Hg|Hg];
    destruct (Z.eqb_spec (period_id a) (period_id b)) as [Hp|Hp];
    split_ltb; try lia; simpl; try reflexivity.
  destruct (Qeq_bool (time_seconds a) (time_seconds b)) eqn:Hq.
  - apply Qeq_bool_iff in Hq. symmetry. apply andb_true_iff.
    rewrite !Qle_bool_iff. rewrite Hq. split; apply Qle_refl.
  - symmetry. apply not_true_is_false. intros Hle.
    apply andb_true_iff in Hle. rewrite !Qle_bool_iff in Hle.
    destruct Hle as [Hab Hba].
    assert (Hq' : Qeq_bool (time_seconds a) (time_seconds b) = true)
      by (apply Qeq_bool_iff, Qle_antisym; assumption).
    congruence.
Qed.

Lemma same_key_spec (a b : Action) :
  same_key a b = true <->
  game_id a = game_id b /\ period_id a = period_id b
  /\ (time_seconds a == time_seconds b)%Q.
Proof.
  unfold same_key. rewrite !andb_true_iff, !Z.eqb_eq, Qeq_bool_iff. tauto.
Qed.

Lemma same_key_refl (a : Action) : same_key a a = true.
Proof. apply same_key_spec. split; [|split]; reflexivity. Qed.

(** ** Tags and the dispatch table *)

Lemma contains_In (v : QualifierValue) (qs : list QualifierValue) :
  contains v qs = true <-> In v qs.
Proof.
  unfold contains. rewrite existsb_exists. split.
  - intros (q & Hq & H). destruct (QualifierValue_eq_dec v q); congruence.
  - intros H. exists v. split; [exact H|].
    destruct (QualifierValue_eq_dec v v); congruence.
Qed.

Lemma contains_has_tag (event : Event) (v : QualifierValue) :
  contains v (_qualifiers event) = true <-> has_tag event v.
Proof. apply contains_In. Qed.

Lemma contains_false (event : Event) (v : QualifierValue) :
  contains v (_qualifiers event) = false <-> ~ has_tag event v.
Proof.
  rewrite <- contains_has_tag. destruct (contains v (_qualifiers event)).
  - split; [discriminate | intros H; exfalso; apply H; reflexivity].
  - split; [discriminate | reflexivity].
Qed.

Lemma crossed_tags_spec (event : Event) :
  contains (QPassType PassType.CHIPPED_PASS) (_qualifiers event)
  || contains (QPassType PassType.CROSS) (_qualifiers event)
  || contains (QPassType PassType.HIGH_PASS) (_qualifiers event) = true
  <-> crossed_tags event.
Proof.
  unfold crossed_tags. rewrite !orb_true_iff, !contains_has_tag. tauto.
Qed.

Lemma crossed_tags_false (event : Event) :
  contains (QPassType PassType.CHIPPED_PASS) (_qualifiers event)
  || contains (QPassType PassType.CROSS) (_qualifiers event)
  || contains (QPassType PassType.HIGH_PASS) (_qualifiers event) = false
  <-> ~ crossed_tags event.
Proof.
  rewrite <- crossed_tags_spec.
  destruct (_ || _ || _).
  - split; [discriminate | intros H; exfalso; apply H; reflexivity].
  - split; [discriminate | reflexivity].
Qed.

(** The kinds the dispatch table has no entry for get the default mapper. *)
Lemma parser_unmapped (event : Event) :
  has_key events (event_type event) = false ->
  parser event = _parse_event_as_non_action.
Proof.
  unfold parser. destruct (event_type event); simpl; intros H;
    first [reflexivity | discriminate].
Qed.

(** No mapper the dispatch can reach returns the type [foul]. *)
Lemma parser_type_not_foul (event : Event) :
  triple_type (parser event event) <> "foul".
Proof.
  unfold parser, triple_type.
  destruct (event_type event); simpl; try discriminate.
  - unfold _parse_pass_event.
    repeat match goal with
           | |- context [if ?c then _ else _] => destruct c
           end; simpl; discriminate.
  - unfold _parse_shot_event.
    repeat match goal with
           | |- context [if ?c then _ else _] => destruct c
           end; simpl; discriminate.
Qed.

(** ** [list.index] *)

Lemma index_nth_error (name : string) (table : list string) (i : nat) :
  index name table = Ok i -> nth_error table i = Some name.
Proof.
  revert i; induction table as [|s table IH]; intros i H; simpl in H.
  - discriminate.
  - destruct (String.eqb_spec s name) as [->|Hs].
    + injection H as <-. reflexivity.
    + inv_bind H. injection H as <-. simpl. apply IH, Hv.
Qed.

Lemma index_In (name : string) (table : list string) :
  In name table -> exists i, index name table = Ok i.
Proof.
  induction table as [|s table IH]; intros H; [destruct H|].
  simpl. destruct (String.eqb_spec s name) as [->|Hs]; [eauto|].
  destruct H as [H|H]; [congruence|].
  destruct (IH H) as (i & ->). simpl. eauto.
Qed.

(** ** The pass mapper *)

Ltac tag_facts :=
  repeat match goal with
         | H : has_tag _ _ |- _ => apply contains_has_tag in H
         | H : ~ has_tag _ _ |- _ => apply contains_false in H
         | H : crossed_tags _ |- _ => apply crossed_tags_spec in H
         | H : ~ crossed_tags _ |- _ => apply crossed_tags_false in H
         end.

Ltac by_tags :=
  tag_facts;
  repeat match goal with
         | H : _ || _ || _ = _ |- _ => rewrite H; clear H
         end;
  repeat match goal with
         | H : contains _ _ = _ |- _ => rewrite H; clear H
         end;
  reflexivity.

Lemma parser_pass (event : Event) :
  event_type event = EventType.PASS -> parser event = _parse_pass_event.
Proof. intros H. unfold parser. rewrite H. reflexivity. Qed.

Lemma parser_shot (event : Event) :
  event_type event = EventType.SHOT -> parser event = _parse_shot_event.
Proof. intros H. unfold parser. rewrite H. reflexivity. Qed.

Lemma pass_type_freekick (event : Event) :
  has_tag event (QSetPiece SetPieceType.FREE_KICK) ->
  (crossed_tags event ->
   triple_type (_parse_pass_event event) = "freekick_crossed")
  /\ (~ crossed_tags event ->
      triple_type (_parse_pass_event event) = "freekick_short").
Proof.
  intros Hfk; split; intros Hc;
    unfold triple_type, _parse_pass_event; cbn [fst snd]; by_tags.
Qed.

Lemma pass_type_corner (event : Event) :
  ~ has_tag event (QSetPiece SetPieceType.FREE_KICK) ->
  has_tag event (QSetPiece SetPieceType.CORNER_KICK) ->
  (crossed_tags event ->
   triple_type (_parse_pass_event event) = "corner_crossed")
  /\ (~ crossed_tags event ->
      triple_type (_parse_pass_event event) = "corner_short").
Proof.
  intros Hfk Hck; split; intros Hc;
    unfold triple_type, _parse_pass_event; cbn [fst snd]; by_tags.
Qed.

(** C1. For every pass event the action type follows a first-match-wins
    precedence over the qualifier tags: the free-kick tag gives
    freekick_crossed when a chipped, cross or high-pass tag is present and
    freekick_short otherwise; else the corner-kick tag gives corner_crossed
    or corner_short by the same sub-rule; else the goal-kick tag gives
    goalkick; else the throw-in tag gives throw_in; else the cross tag gives
    cross; else the type is pass.  A pass tagged exactly {FREE_KICK, CROSS}
    is freekick_crossed and one tagged exactly {CORNER_KICK} is
    corner_short. *)
Theorem pass_type_first_match_wins (event : Event) :
  event_type event = EventType.PASS ->
  let a := triple_type (parser event event) in
  let free_kick := has_tag event (QSetPiece SetPieceType.FREE_KICK) in
  let corner_kick := has_tag event (QSetPiece SetPieceType.CORNER_KICK) in
  let goal_kick := has_tag event (QSetPiece SetPieceType.GOAL_KICK) in
  let throw_in := has_tag event (QSetPiece SetPieceType.THROW_IN) in
  let cross := has_tag event (QPassType PassType.CROSS) in
  (free_kick ->
     (crossed_tags event -> a = "freekick_crossed")
     /\ (~ crossed_tags event -> a = "freekick_short"))
  /\ (~ free_kick -> corner_kick ->
        (crossed_tags event -> a = "corner_crossed")
        /\ (~ crossed_tags event -> a = "corner_short"))
  /\ (~ free_kick -> ~ corner_kick -> goal_kick -> a = "goalkick")
  /\ (~ free_kick -> ~ corner_kick -> ~ goal_kick -> throw_in ->
        a = "throw_in")
  /\ (~ free_kick -> ~ corner_kick -> ~ goal_kick -> ~ throw_in -> cross ->
        a = "cross")
  /\ (~ free_kick -> ~ corner_kick -> ~ goal_kick -> ~ throw_in -> ~ cross ->
        a = "pass")
  /\ ((forall q, has_tag event q <->
                 q = QSetPiece SetPieceType.FREE_KICK
                 \/ q = QPassType PassType.CROSS) ->
        a = "freekick_crossed")
  /\ ((forall q, has_tag event q <-> q = QSetPiece SetPieceType.CORNER_KICK) ->
        a = "corner_short").
Proof.
  intros Hty a free_kick corner_kick goal_kick throw_in cross.
  subst a free_kick corner_kick goal_kick throw_in cross.
  rewrite (parser_pass _ Hty).
  split; [exact (pass_type_freekick event)|].
  split; [exact (pass_type_corner event)|].
  split; [|split; [|split; [|split; [|split]]]].
  - intros Hfk Hck Hgk.
    unfold triple_type, _parse_pass_event; cbn [fst snd]; by_tags.
  - intros Hfk Hck Hgk Hti.
    unfold triple_type, _parse_pass_event; cbn [fst snd]; by_tags.
  - intros Hfk Hck Hgk Hti Hcr.
    unfold triple_type, _parse_pass_event; cbn [fst snd]; by_tags.
  - intros Hfk Hck Hgk Hti Hcr.
    unfold triple_type, _parse_pass_event; cbn [fst snd]; by_tags.
  - intros Htags.
    apply (pass_type_freekick event).
    + apply Htags. left; reflexivity.
    + right; left. apply Htags. right; reflexivity.
  - intros Htags.
    apply (pass_type_corner event).
    + intros H. apply Htags in H. discriminate.
    + apply Htags. reflexivity.
    + intros [H|[H|H]]; apply Htags in H; discriminate.
Qed.

Lemma pass_type_first_match_wins_witness :
  triple_type (parser ev_freekick_cross ev_freekick_cross) = "freekick_crossed"
  /\ triple_type (parser ev_corner ev_corner) = "corner_short".
Proof.
  split.
  - apply (pass_type_first_match_wins ev_freekick_cross); [reflexivity|].
    intros q; unfold has_tag; simpl. intuition congruence.
  - apply (pass_type_first_match_wins ev_corner); [reflexivity|].
    intros q; unfold has_tag; simpl. intuition congruence.
Defined.

(** ** The shot mapper *)

Lemma shot_result_is_Some (event : Event) (r m : ShotResult.t) :
  shot_result event = Some r ->
  shot_result_is event m = ShotResult.eqb r m.
Proof. unfold shot_result_is. intros ->. reflexivity. Qed.

Lemma shot_result_is_true (event : Event) (m : ShotResult.t) :
  shot_result_is event m = true <-> shot_result event = Some m.
Proof.
  unfold shot_result_is. destruct (shot_result event) as [r|].
  - destruct r, m; simpl; split; intros H;
      first [reflexivity | discriminate].
  - split; discriminate.
Qed.

Lemma shot_result_is_false (event : Event) (m : ShotResult.t) :
  shot_result_is event m = false <-> shot_result event <> Some m.
Proof.
  rewrite <- shot_result_is_true. destruct (shot_result_is event m).
  - split; [discriminate | intros H; exfalso; apply H; reflexivity].
  - split; [discriminate | reflexivity].
Qed.

(** C2. For every shot event: a goal gives result success; an own goal gives
    type bad_touch with result own_goal whatever free-kick or penalty tags
    are present; any other outcome gives result fail with the type read from
    the tags (free-kick tag: shot_freekick, else penalty tag: shot_penalty,
    else shot). *)
Theorem shot_type_and_result (event : Event) :
  event_type event = EventType.SHOT ->
  let a := triple_type (parser event event) in
  let r := triple_result (parser event event) in
  let free_kick := has_tag event (QSetPiece SetPieceType.FREE_KICK) in
  let penalty := has_tag event (QSetPiece SetPieceType.PENALTY) in
  (shot_result event = Some ShotResult.GOAL -> r = "success")
  /\ (shot_result event = Some ShotResult.OWN_GOAL ->
        a = "bad_touch" /\ r = "own_goal")
  /\ (shot_result event <> Some ShotResult.GOAL ->
      shot_result event <> Some ShotResult.OWN_GOAL ->
        r = "fail"
        /\ (free_kick -> a = "shot_freekick")
        /\ (~ free_kick -> penalty -> a = "shot_penalty")
        /\ (~ free_kick -> ~ penalty -> a = "shot")).
Proof.
  intros Hty a r free_kick penalty. subst a r free_kick penalty.
  rewrite (parser_shot _ Hty).
  unfold triple_type, triple_result, _parse_shot_event.
  split; [|split].
  - intros Hr. apply shot_result_is_true in Hr. rewrite Hr. reflexivity.
  - intros Hr.
    rewrite (shot_result_is_Some _ _ ShotResult.GOAL Hr).
    rewrite (shot_result_is_Some _ _ ShotResult.OWN_GOAL Hr).
    split; reflexivity.
  - intros Hg Ho.
    apply shot_result_is_false in Hg, Ho. rewrite Hg, Ho. cbn [fst snd].
    split; [reflexivity|].
    split; [|split]; intros; by_tags.
Qed.

Lemma shot_type_and_result_witness :
  (triple_type (parser ev_own_goal ev_own_goal) = "bad_touch"
   /\ triple_result (parser ev_own_goal ev_own_goal) = "own_goal")
  /\ triple_result (parser ev_saved_freekick ev_saved_freekick) = "fail"
  /\ triple_type (parser ev_saved_freekick ev_saved_freekick) = "shot_freekick".
Proof.
  split; [|split].
  - apply (shot_type_and_result ev_own_goal); reflexivity.
  - apply (shot_type_and_result ev_saved_freekick);
      first [reflexivity | discriminate].
  - apply (shot_type_and_result ev_saved_freekick);
      first [discriminate | reflexivity | (left; reflexivity)].
Defined.

(** ** The location resolver *)

(** C4. The end location follows this precedence: a pass with a complete
    outcome and known receiver coordinates ends at the receiver; a carry with
    a known end location ends there; a shot with a known outcome location
    ends there; in every other case the end equals the start when the start
    is known, and both end coordinates are null when it is not.  The record
    built for the event carries exactly these values. *)
Theorem end_location_precedence (event : Event) :
  (forall rc,
      body event = PassEvent (Some PassResult.COMPLETE) (Some rc) ->
      _get_end_location event = (Some (Point.x rc), Some (Point.y rc)))
  /\ (forall ec,
        body event = CarryEvent (Some ec) ->
        _get_end_location event = (Some (Point.x ec), Some (Point.y ec)))
  /\ (forall r rc,
        body event = ShotEvent r (Some rc) ->
        _get_end_location event = (Some (Point.x rc), Some (Point.y rc)))
  /\ (forall c,
        ~ kind_rule_applies event -> coordinates event = Some c ->
        _get_end_location event = (Some (Point.x c), Some (Point.y c)))
  /\ (~ kind_rule_applies event -> coordinates event = None ->
        _get_end_location event = (None, None))
  /\ (forall actiontypes results bodyparts a,
        make_action actiontypes results bodyparts event = Ok a ->
        (end_x a, end_y a) = _get_end_location event
        /\ (~ kind_rule_applies event ->
            end_x a = start_x a /\ end_y a = start_y a)).
Proof.
  unfold kind_rule_applies, _get_end_location.
  split; [|split; [|split; [|split; [|split]]]].
  - intros rc ->. reflexivity.
  - intros ec ->. reflexivity.
  - intros r rc ->. reflexivity.
  - intros c Hno ->.
    destruct (body event) as [ | [[ | | | ]|] [rc|] | r [rc|] | r | [ec|]
                              | | | | | | | | ]; try reflexivity;
      exfalso; apply Hno; eauto.
  - intros Hno ->.
    destruct (body event) as [ | [[ | | | ]|] [rc|] | r [rc|] | r | [ec|]
                              | | | | | | | | ]; try reflexivity;
      exfalso; apply Hno; eauto.
  - intros actiontypes results bodyparts a Ha.
    unfold make_action in Ha. inv_bind Ha. injection Ha as <-.
    cbn [end_x end_y start_x start_y].
    split; [symmetry; apply surjective_pairing|].
    intros Hno. unfold _get_end_location.
    destruct (body event) as [ | [[ | | | ]|] [rc|] | r [rc|] | r | [ec|]
                              | | | | | | | | ];
      try (exfalso; apply Hno; eauto; fail);
      destruct (coordinates event); split; reflexivity.
Qed.

Lemma end_location_precedence_witness :
  _get_end_location ev_freekick_cross = (Some 90, Some 35)
  /\ _get_end_location ev_carry = (Some 25, Some 22)
  /\ _get_end_location ev_own_goal = (Some 105, Some 34)
  /\ _get_end_location ev_corner = (Some 105, Some 0)
  /\ _get_end_location ev_substitution = (None, None).
Proof.
  split; [|split; [|split; [|split]]].
  - exact (proj1 (end_location_precedence ev_freekick_cross)
             (pt 90 35) eq_refl).
  - exact (proj1 (proj2 (end_location_precedence ev_carry))
             (pt 25 22) eq_refl).
  - exact (proj1 (proj2 (proj2 (end_location_precedence ev_own_goal)))
             (Some ShotResult.OWN_GOAL) (pt 105 34) eq_refl).
  - apply (proj1 (proj2 (proj2 (proj2 (end_location_precedence ev_corner))))
             (pt 105 0)); [|reflexivity].
    intros [(rc & H)|[(ec & H)|(r & rc & H)]]; discriminate.
  - apply (proj1 (proj2 (proj2 (proj2 (proj2
             (end_location_precedence ev_substitution)))))); [|reflexivity].
    intros [(rc & H)|[(ec & H)|(r & rc & H)]]; discriminate.
Defined.

(** ** More on the stable sort: filtering commutes with sorting *)

Section StableSortFilter.
Context {A : Type}.
Variable leb : A -> A -> bool.
Hypothesis leb_total : forall a b, leb a b = true \/ leb b a = true.
Hypothesis leb_trans :
  forall a b c, leb a b = true -> leb b c = true -> leb a c = true.

Lemma insert_below_all (a : A) (l : list A) :
  Forall (fun b => leb a b = true) l -> insert leb a l = a :: l.
Proof.
  destruct 1 as [|b l Hb _]; simpl; [reflexivity|].
  rewrite Hb. reflexivity.
Qed.

Lemma filter_insert (p : A -> bool) (a : A) (l : list A) :
  StronglySorted (fun x y => leb x y = true) l ->
  filter p (insert leb a l)
  = if p a then insert leb a (filter p l) else filter p l.
Proof.
  induction 1 as [|b l Hl IH Hb]; simpl.
  - destruct (p a); reflexivity.
  - destruct (leb a b) eqn:Hab.
    + cbn [filter]. destruct (p a); [|reflexivity].
      symmetry. apply (insert_below_all a (filter p (b :: l))).
      rewrite Forall_forall in *. intros c Hc.
      apply filter_In in Hc. destruct Hc as [[<-|Hc] _]; [exact Hab|].
      eapply leb_trans; [exact Hab | apply Hb, Hc].
    + cbn [filter]. destruct (p b) eqn:Hpb.
      * rewrite IH. destruct (p a); [|reflexivity].
        cbn [insert]. rewrite Hab. reflexivity.
      * exact IH.
Qed.

Lemma filter_stable_sort (p : A -> bool) (l : list A) :
  filter p (stable_sort leb l) = stable_sort leb (filter p l).
Proof.
  induction l as [|a l IH]; [reflexivity|].
  cbn [stable_sort filter].
  rewrite filter_insert
    by (apply stable_sort_StronglySorted; assumption).
  rewrite IH. destruct (p a); reflexivity.
Qed.
End StableSortFilter.

(** ** Identifier assignment *)

Lemma combine_seq_map_snd {A : Type} (l : list A) (start : nat) :
  map snd (combine (seq start (List.length l)) l) = l.
Proof.
  revert start; induction l as [|a l IH]; intros start; simpl;
    [reflexivity | f_equal; apply IH].
Qed.

Lemma combine_seq_map_fst {A : Type} (l : list A) (start : nat) :
  map fst (combine (seq start (List.length l)) l) = seq start (List.length l).
Proof.
  revert start; induction l as [|a l IH]; intros start; simpl;
    [reflexivity | f_equal; apply IH].
Qed.

Lemma set_action_id_actions (actions : list Action) :
  map action (set_action_id actions) = actions.
Proof.
  unfold set_action_id. rewrite map_map. cbn [action].
  apply combine_seq_map_snd.
Qed.

Lemma set_action_id_length (actions : list Action) :
  List.length (set_action_id actions) = List.length actions.
Proof.
  rewrite <- (set_action_id_actions actions) at 2.
  symmetry. apply length_map.
Qed.

Lemma set_action_id_ids (actions : list Action) :
  map action_id (set_action_id actions) = seq 0 (List.length actions).
Proof.
  unfold set_action_id. rewrite map_map. cbn [action_id].
  apply combine_seq_map_fst.
Qed.

(** ** The assembler *)

Section AssemblerFacts.
Variables actiontypes results bodyparts : list string.

Local Abbreviation mk_action := (make_action actiontypes results bodyparts).
Local Abbreviation asm := (assemble actiontypes results bodyparts).

(** What a table that was assembled without an exception is made of. *)
Lemma assemble_Ok_inv (evs : list Event) (table : list ActionRow) :
  asm evs = Ok table ->
  exists provisional non_action,
    mapM mk_action evs = Ok provisional
    /\ provisional <> []
    /\ index "non_action" actiontypes = Ok non_action
    /\ table = set_action_id
                 (filter (retained non_action)
                         (stable_sort key_leb provisional)).
Proof.
  unfold assemble. intros H.
  inv_bind H. inv_bind H. inv_bind H.
  injection H as <-.
  exists v, v1. split; [exact Hv|].
  destruct v as [|a v]; [discriminate|].
  injection Hv0 as <-.
  split; [discriminate|]. split; [exact Hv1|]. reflexivity.
Qed.

Lemma make_action_fields (event : Event) (a : Action) :
  mk_action event = Ok a ->
  exists t r b,
    _parse_event actiontypes results bodyparts event = Ok (t, r, b)
    /\ game_id a = 0%Z
    /\ period_id a = Period.id (period event)
    /\ time_seconds a = timestamp event
    /\ type_id a = t /\ result_id a = r /\ bodypart_id a = b.
Proof.
  unfold make_action. intros H.
  inv_bind H. injection H as <-. destruct v as [[t r] b].
  exists t, r, b. repeat split. exact Hv.
Qed.

Lemma _parse_event_type (event : Event) (t r b : nat) :
  _parse_event actiontypes results bodyparts event = Ok (t, r, b) ->
  index (triple_type (parser event event)) actiontypes = Ok t
  /\ index (triple_result (parser event event)) results = Ok r
  /\ index (triple_bodypart (parser event event)) bodyparts = Ok b.
Proof.
  unfold _parse_event, triple_type, triple_result, triple_bodypart.
  destruct (parser event event) as [[a0 r0] b0]. cbn [fst snd].
  intros H. inv_bind H. inv_bind H. inv_bind H.
  injection H as <- <- <-. auto.
Qed.

(** Every row of the table was built from an input event and passed the
    non-action filter. *)
Lemma assemble_row_origin (evs : list Event) (table : list ActionRow)
    (row : ActionRow) :
  asm evs = Ok table -> In row table ->
  exists event non_action,
    In event evs
    /\ mk_action event = Ok (action row)
    /\ index "non_action" actiontypes = Ok non_action
    /\ type_id (action row) <> non_action.
Proof.
  intros H Hrow.
  destruct (assemble_Ok_inv _ _ H) as (prov & na & Hprov & _ & Hna & ->).
  apply (in_map action) in Hrow. rewrite set_action_id_actions in Hrow.
  apply filter_In in Hrow. destruct Hrow as [Hin Hret].
  apply (proj1 (stable_sort_In key_leb _ _)) in Hin.
  destruct (mapM_In _ _ _ Hprov _ Hin) as (event & Hev & Hmk).
  exists event, na. repeat split; try assumption.
  unfold retained in Hret. apply negb_true_iff in Hret.
  apply Nat.eqb_neq, Hret.
Qed.

(** The record of an event the dispatch table does not map is not a row of
    any assembled table. *)
Lemma unmapped_not_in_table (event : Event) (evs : list Event)
    (table : list ActionRow) (row : ActionRow) :
  has_key events (event_type event) = false ->
  asm evs = Ok table -> In row table ->
  mk_action event <> Ok (action row).
Proof.
  intros Hkey H Hrow Hmk.
  destruct (assemble_row_origin _ _ _ H Hrow) as (_ & na & _ & _ & Hna & Hne).
  destruct (make_action_fields _ _ Hmk) as (t & r & b & Hp & _ & _ & _ & Ht & _).
  apply _parse_event_type in Hp. destruct Hp as (Hp & _).
  rewrite (parser_unmapped _ Hkey) in Hp.
  unfold triple_type, _parse_event_as_non_action in Hp. cbn [fst] in Hp.
  congruence.
Qed.
End AssemblerFacts.


Lemma sample_provisional_ok :
  mapM (make_action spadl_actiontypes spadl_results spadl_bodyparts)
       sample_events = Ok sample_provisional.
Proof. vm_compute. reflexivity. Defined.

Lemma sample_assemble_ok : sample_assemble sample_events = Ok sample_table.
Proof. vm_compute. reflexivity. Defined.

(** ** Identifiers of the assembled table *)

(** C5. After the sort, the non-action filter and the identifier assignment,
    the action identifiers of the assembled table are 0, 1, ..., n-1 in row
    order: dense, zero-based and strictly increasing along the table, whose
    rows are the retained records in sorted order. *)
Theorem action_ids_dense (actiontypes results bodyparts : list string)
    (evs : list Event) (table : list ActionRow) :
  assemble actiontypes results bodyparts evs = Ok table ->
  map action_id table = seq 0 (List.length table)
  /\ (forall i row, nth_error table i = Some row -> action_id row = i)
  /\ (forall i j ri rj,
        (i < j)%nat ->
        nth_error table i = Some ri -> nth_error table j = Some rj ->
        (action_id ri < action_id rj)%nat)
  /\ (exists provisional non_action,
        mapM (make_action actiontypes results bodyparts) evs = Ok provisional
        /\ index "non_action" actiontypes = Ok non_action
        /\ map action table
           = filter (retained non_action) (stable_sort key_leb provisional)).
Proof.
  intros H.
  destruct (assemble_Ok_inv _ _ _ _ _ H) as (prov & na & Hprov & _ & Hna & ->).
  assert (Hids : map action_id
                   (set_action_id
                      (filter (retained na) (stable_sort key_leb prov)))
                 = seq 0 (List.length
                            (set_action_id
                               (filter (retained na)
                                       (stable_sort key_leb prov)))))
    by (rewrite set_action_id_length; apply set_action_id_ids).
  assert (Hnth : forall i row,
             nth_error (set_action_id
                          (filter (retained na) (stable_sort key_leb prov))) i
             = Some row -> action_id row = i).
  { intros i row Hrow.
    pose proof (map_nth_error action_id _ _ Hrow) as Hi.
    rewrite Hids in Hi.
    assert (Hlt : (i < List.length
                         (set_action_id
                            (filter (retained na)
                                    (stable_sort key_leb prov))))%nat)
      by (apply nth_error_Some; congruence).
    apply (nth_error_nth _ _ 0%nat) in Hi.
    rewrite seq_nth in Hi by exact Hlt. simpl in Hi. congruence. }
  split; [exact Hids|]. split; [exact Hnth|]. split.
  - intros i j ri rj Hij Hi Hj.
    rewrite (Hnth _ _ Hi), (Hnth _ _ Hj). exact Hij.
  - exists prov, na. split; [exact Hprov|]. split; [exact Hna|].
    apply set_action_id_actions.
Qed.

Lemma action_ids_dense_witness :
  sample_assemble sample_events = Ok sample_table
  /\ sample_table <> []
  /\ map action_id sample_table = [0; 1; 2; 3; 4; 5]%nat.
Proof.
  split; [exact sample_assemble_ok|].
  split; [discriminate|].
  exact (proj1 (action_ids_dense _ _ _ _ _ sample_assemble_ok)).
Defined.

(** ** Order of the assembled table *)

Lemma retained_of_row (actiontypes results bodyparts : list string)
    (evs : list Event) (table : list ActionRow) (non_action : nat) (a : Action) :
  assemble actiontypes results bodyparts evs = Ok table ->
  index "non_action" actiontypes = Ok non_action ->
  In a (map action table) -> retained non_action a = true.
Proof.
  intros H Hna Ha.
  destruct (assemble_Ok_inv _ _ _ _ _ H) as (prov & na & _ & _ & Hna' & ->).
  rewrite set_action_id_actions in Ha. apply filter_In in Ha.
  assert (na = non_action) by congruence. subst na. apply Ha.
Qed.

(** C6. The assembled table is ordered by (game_id, period_id,
    time_seconds) and the sort is stable: the rows that share a key are, in
    table order, the retained provisional records with that key in input
    order; so of two retained records with equal keys the one that came
    first in the input comes first in the table. *)
Theorem table_sorted_stable (actiontypes results bodyparts : list string)
    (evs : list Event) (provisional : list Action) (table : list ActionRow) :
  mapM (make_action actiontypes results bodyparts) evs = Ok provisional ->
  assemble actiontypes results bodyparts evs = Ok table ->
  StronglySorted key_le (map action table)
  /\ (exists non_action,
        index "non_action" actiontypes = Ok non_action
        /\ forall k,
            filter (same_key k) (map action table)
            = filter (same_key k) (filter (retained non_action) provisional))
  /\ (forall l1 a l2 b l3,
        provisional = l1 ++ a :: l2 ++ b :: l3 ->
        same_key a b = true ->
        In a (map action table) -> In b (map action table) ->
        exists m1 m2 m3, map action table = m1 ++ a :: m2 ++ b :: m3).
Proof.
  intros Hprov H.
  destruct (assemble_Ok_inv _ _ _ _ _ H) as (prov & na & Hprov' & _ & Hna & Ht).
  assert (prov = provisional) by congruence. subst prov. clear Hprov'.
  assert (Hout : map action table
                 = filter (retained na) (stable_sort key_leb provisional))
    by (rewrite Ht; apply set_action_id_actions).
  assert (Hstable : forall k,
             filter (same_key k) (map action table)
             = filter (same_key k) (filter (retained na) provisional)).
  { intros k. rewrite Hout.
    rewrite (filter_swap (same_key k) (retained na)).
    rewrite (filter_swap (same_key k) (retained na) provisional).
    f_equal.
    rewrite !(filter_ext _ _ (same_key_ties k)).
    apply (stable_sort_stable key_leb key_leb_trans). }
  split; [|split].
  - rewrite Hout. apply StronglySorted_filter.
    apply (stable_sort_StronglySorted key_leb key_leb_total key_leb_trans).
  - exists na. split; [exact Hna | exact Hstable].
  - intros l1 a l2 b l3 Hsplit Hab Ha Hb.
    pose proof (retained_of_row _ _ _ _ _ _ _ H Hna Ha) as Hra.
    pose proof (retained_of_row _ _ _ _ _ _ _ H Hna Hb) as Hrb.
    pose proof (Hstable a) as Hk.
    rewrite Hsplit in Hk.
    rewrite filter_filter_comm in Hk.
    rewrite filter_app in Hk. cbn [filter] in Hk.
    rewrite filter_app in Hk. cbn [filter] in Hk.
    rewrite Hra, Hrb, same_key_refl, Hab in Hk. cbn [andb] in Hk.
    apply filter_eq_app_cons in Hk.
    destruct Hk as (m1 & m & Hm & _ & Hk).
    apply filter_eq_app_cons in Hk.
    destruct Hk as (m2 & m3 & -> & _ & _).
    exists m1, m2, m3. exact Hm.
Qed.

Lemma table_sorted_stable_witness :
  mapM (make_action spadl_actiontypes spadl_results spadl_bodyparts)
       sample_events = Ok sample_provisional
  /\ sample_assemble sample_events = Ok sample_table
  /\ StronglySorted key_le (map action sample_table)
  /\ map original_event_id (map action sample_table)
     = ["e3"; "e1"; "e2"; "e7"; "e8"; "e4"].
Proof.
  split; [exact sample_provisional_ok|].
  split; [exact sample_assemble_ok|].
  split; [|reflexivity].
  exact (proj1 (table_sorted_stable _ _ _ _ _ _
                  sample_provisional_ok sample_assemble_ok)).
Defined.

(** ** The match identifier *)

Lemma insert_ext {A : Type} (leb1 leb2 : A -> A -> bool) (a : A) (l : list A) :
  (forall b, In b l -> leb1 a b = leb2 a b) ->
  insert leb1 a l = insert leb2 a l.
Proof.
  induction l as [|b l IH]; intros H; [reflexivity|].
  cbn [insert]. rewrite (H b) by (left; reflexivity).
  destruct (leb2 a b); [reflexivity|].
  f_equal. apply IH. intros c Hc. apply H. right; exact Hc.
Qed.

Lemma stable_sort_ext {A : Type} (leb1 leb2 : A -> A -> bool) (l : list A) :
  (forall a b, In a l -> In b l -> leb1 a b = leb2 a b) ->
  stable_sort leb1 l = stable_sort leb2 l.
Proof.
  induction l as [|a l IH]; intros H; [reflexivity|].
  cbn [stable_sort]. rewrite IH.
  - apply insert_ext. intros b Hb.
    apply (proj1 (stable_sort_In leb2 _ _)) in Hb.
    apply H; [left; reflexivity | right; exact Hb].
  - intros b c Hb Hc. apply H; right; assumption.
Qed.

Lemma key_leb_same_game (a b : Action) :
  game_id a = game_id b -> key_leb a b = period_time_leb a b.
Proof.
  intros Hg. unfold key_leb, period_time_leb. rewrite Hg.
  rewrite Z.ltb_irrefl. reflexivity.
Qed.

Lemma provisional_game_id (actiontypes results bodyparts : list string)
    (evs : list Event) (provisional : list Action) :
  mapM (make_action actiontypes results bodyparts) evs = Ok provisional ->
  forall a, In a provisional -> game_id a = 0%Z.
Proof.
  intros H a Ha.
  destruct (mapM_In _ _ _ H _ Ha) as (event & _ & Hmk).
  destruct (make_action_fields _ _ _ _ _ Hmk) as (t & r & b & _ & Hg & _).
  exact Hg.
Qed.

(** C9. Every record the assembler builds has game_id 0, whatever the
    dataset; hence the game_id column never separates two rows: the sort key
    orders them as (period_id, time_seconds) alone does, and sorting the
    provisional records by either order gives the same table. *)
Theorem game_id_is_zero (actiontypes results bodyparts : list string)
    (evs : list Event) (table : list ActionRow) :
  assemble actiontypes results bodyparts evs = Ok table ->
  (forall row, In row table -> game_id (action row) = 0%Z)
  /\ (forall r1 r2,
        In r1 table -> In r2 table ->
        key_leb (action r1) (action r2)
        = period_time_leb (action r1) (action r2))
  /\ (exists provisional,
        mapM (make_action actiontypes results bodyparts) evs = Ok provisional
        /\ (forall a, In a provisional -> game_id a = 0%Z)
        /\ stable_sort key_leb provisional
           = stable_sort period_time_leb provisional).
Proof.
  intros H.
  assert (Hrow : forall row, In row table -> game_id (action row) = 0%Z).
  { intros row Hin.
    destruct (assemble_row_origin _ _ _ _ _ _ H Hin)
      as (event & na & _ & Hmk & _).
    destruct (make_action_fields _ _ _ _ _ Hmk) as (t & r & b & _ & Hg & _).
    exact Hg. }
  split; [exact Hrow|]. split.
  - intros r1 r2 H1 H2. apply key_leb_same_game.
    rewrite (Hrow _ H1), (Hrow _ H2). reflexivity.
  - destruct (assemble_Ok_inv _ _ _ _ _ H) as (prov & na & Hprov & _).
    exists prov. split; [exact Hprov|].
    pose proof (provisional_game_id _ _ _ _ _ Hprov) as Hg.
    split; [exact Hg|].
    apply stable_sort_ext. intros a b Ha Hb.
    apply key_leb_same_game. rewrite (Hg _ Ha), (Hg _ Hb). reflexivity.
Qed.

Lemma game_id_is_zero_witness :
  sample_assemble sample_events = Ok sample_table
  /\ forall row, In row sample_table -> game_id (action row) = 0%Z.
Proof.
  split; [exact sample_assemble_ok|].
  exact (proj1 (game_id_is_zero _ _ _ _ _ sample_assemble_ok)).
Defined.

(** ** The home team identifier *)

(** C8. The home team identifier does not influence the output: for every
    dataset, configuration and collaborators, two runs of the entry point
    that differ only in the home team identifier return the same table or
    raise the same exception. *)
Theorem home_team_id_unused (actiontypes results bodyparts : list string)
    (field_length field_width : Q)
    (transform : Orientation.t -> CoordinateSystem ->
                 EventDataset.t -> EventDataset.t)
    (_add_dribbles : list ActionRow -> list ActionRow)
    (SPADLSchema : list ActionRow -> result (list ActionRow))
    (_has_kloppy : bool) (dataset : EventDataset.t) (home1 home2 : Z) :
  convert_to_actions actiontypes results bodyparts field_length field_width
    transform _add_dribbles SPADLSchema _has_kloppy dataset home1
  = convert_to_actions actiontypes results bodyparts field_length field_width
      transform _add_dribbles SPADLSchema _has_kloppy dataset home2.
Proof.
  unfold convert_to_actions.
  destruct _has_kloppy; cbn [negb].
  - destruct (assemble actiontypes results bodyparts _) as [table|e];
      reflexivity.
  - reflexivity.
Qed.

(** ** Events the dispatch table does not map *)

Lemma mapM_app {A B : Type} (f : A -> result B) (l1 l2 : list A) :
  mapM f (l1 ++ l2)
  = (b1 <- mapM f l1 ;; b2 <- mapM f l2 ;; Ok (b1 ++ b2)).
Proof.
  induction l1 as [|a l1 IH]; simpl.
  - destruct (mapM f l2); reflexivity.
  - destruct (f a) as [b|e]; simpl; [|reflexivity].
    rewrite IH. destruct (mapM f l1) as [b1|e]; simpl; [|reflexivity].
    destruct (mapM f l2); reflexivity.
Qed.

Lemma sort_values_nonempty (actions : list Action) :
  actions <> [] -> sort_values actions = Ok (stable_sort key_leb actions).
Proof. destruct actions; [congruence | reflexivity]. Qed.

Lemma _parse_event_unmapped (actiontypes results bodyparts : list string)
    (event : Event) :
  has_key events (event_type event) = false ->
  In "non_action" actiontypes -> In "success" results -> In "foot" bodyparts ->
  exists t r b,
    _parse_event actiontypes results bodyparts event = Ok (t, r, b)
    /\ index "non_action" actiontypes = Ok t
    /\ index "success" results = Ok r
    /\ index "foot" bodyparts = Ok b.
Proof.
  intros Hkey Ha Hr Hb.
  destruct (index_In _ _ Ha) as (t & Ht).
  destruct (index_In _ _ Hr) as (r & Hr').
  destruct (index_In _ _ Hb) as (b & Hb').
  exists t, r, b. unfold _parse_event.
  rewrite (parser_unmapped _ Hkey). unfold _parse_event_as_non_action.
  rewrite Ht, Hr', Hb'. simpl. auto.
Qed.

Lemma make_action_unmapped (actiontypes results bodyparts : list string)
    (event : Event) :
  has_key events (event_type event) = false ->
  In "non_action" actiontypes -> In "success" results -> In "foot" bodyparts ->
  exists a non_action,
    make_action actiontypes results bodyparts event = Ok a
    /\ index "non_action" actiontypes = Ok non_action
    /\ retained non_action a = false.
Proof.
  intros Hkey Ha Hr Hb.
  destruct (_parse_event_unmapped _ _ _ _ Hkey Ha Hr Hb)
    as (t & r & b & Hp & Ht & _).
  unfold make_action. rewrite Hp. cbn [bind].
  eexists. exists t. split; [reflexivity|]. split; [exact Ht|].
  unfold retained. cbn [type_id fst]. rewrite Nat.eqb_refl. reflexivity.
Qed.

(** Taking an unmapped event out of a dataset that has other events leaves
    the assembled table as it was. *)
Lemma assemble_drop_unmapped (actiontypes results bodyparts : list string)
    (event : Event) (before after : list Event) :
  has_key events (event_type event) = false ->
  In "non_action" actiontypes -> In "success" results -> In "foot" bodyparts ->
  before ++ after <> [] ->
  assemble actiontypes results bodyparts (before ++ event :: after)
  = assemble actiontypes results bodyparts (before ++ after).
Proof.
  intros Hkey Ha Hr Hb Hne.
  destruct (make_action_unmapped _ _ _ _ Hkey Ha Hr Hb)
    as (a & na & Hmk & Hna & Hret).
  unfold assemble. rewrite !mapM_app.
  destruct (mapM _ before) as [p1|e] eqn:H1; cbn [bind]; [|reflexivity].
  cbn [mapM]. rewrite Hmk. cbn [bind].
  destruct (mapM _ after) as [p2|e] eqn:H2; cbn [bind]; [|reflexivity].
  rewrite (sort_values_nonempty (p1 ++ a :: p2))
    by (destruct p1; discriminate).
  rewrite (sort_values_nonempty (p1 ++ p2)).
  - cbn [bind]. rewrite Hna. cbn [bind]. do 2 f_equal.
    fold (retained na).
    rewrite !(filter_stable_sort key_leb key_leb_total key_leb_trans).
    f_equal. rewrite !filter_app. cbn [filter]. rewrite Hret. reflexivity.
  - intros Hnil. apply Hne.
    apply (f_equal (@List.length _)) in Hnil. rewrite length_app in Hnil.
    rewrite (mapM_length _ _ _ H1), (mapM_length _ _ _ H2) in Hnil.
    rewrite <- length_app in Hnil.
    destruct (before ++ after); [reflexivity | discriminate].
Qed.

(** C3. Classification is total on unmapped kinds: for an event whose kind
    has no entry in the dispatch table the classifier raises nothing and
    returns the placeholder (non_action, success, foot), given that the
    vocabulary tables list these three names; no row of an assembled table
    is the record of that event, every row has passed the non-action filter,
    and the table is the one assembled without the event. *)
Theorem unmapped_kind_is_dropped (actiontypes results bodyparts : list string)
    (event : Event) :
  has_key events (event_type event) = false ->
  In "non_action" actiontypes -> In "success" results -> In "foot" bodyparts ->
  parser event event = ("non_action", "success", "foot")
  /\ (exists t r b,
        _parse_event actiontypes results bodyparts event = Ok (t, r, b)
        /\ nth_error actiontypes t = Some "non_action"
        /\ nth_error results r = Some "success"
        /\ nth_error bodyparts b = Some "foot")
  /\ (forall evs table row,
        assemble actiontypes results bodyparts evs = Ok table ->
        In row table ->
        make_action actiontypes results bodyparts event <> Ok (action row)
        /\ nth_error actiontypes (type_id (action row)) <> Some "non_action")
  /\ (forall before after,
        before ++ after <> [] ->
        assemble actiontypes results bodyparts (before ++ event :: after)
        = assemble actiontypes results bodyparts (before ++ after)).
Proof.
  intros Hkey Ha Hr Hb.
  split; [rewrite (parser_unmapped _ Hkey); reflexivity|].
  split; [|split].
  - destruct (_parse_event_unmapped _ _ _ _ Hkey Ha Hr Hb)
      as (t & r & b & Hp & Ht & Hr' & Hb').
    exists t, r, b. split; [exact Hp|].
    split; [|split]; apply index_nth_error; assumption.
  - intros evs table row H Hrow. split.
    + exact (unmapped_not_in_table _ _ _ _ _ _ _ Hkey H Hrow).
    + destruct (assemble_row_origin _ _ _ _ _ _ H Hrow)
        as (e' & na & _ & Hmk & Hna & Hne).
      destruct (make_action_fields _ _ _ _ _ Hmk)
        as (t & r & b & Hp & _ & _ & _ & Ht & _).
      apply _parse_event_type in Hp. destruct Hp as (Hp & _).
      pose proof (index_nth_error _ _ _ Hp) as Hnth.
      rewrite Ht, Hnth. intros Heq. injection Heq as Heq.
      rewrite Heq in Hp. congruence.
  - intros before after Hne.
    exact (assemble_drop_unmapped _ _ _ _ _ _ Hkey Ha Hr Hb Hne).
Qed.

Lemma unmapped_kind_is_dropped_witness :
  has_key events (event_type ev_substitution) = false
  /\ parser ev_substitution ev_substitution = ("non_action", "success", "foot")
  /\ sample_assemble ([ev_freekick_cross] ++ ev_substitution :: [ev_carry])
     = sample_assemble ([ev_freekick_cross] ++ [ev_carry]).
Proof.
  split; [reflexivity|].
  assert (Ha : In "non_action" spadl_actiontypes)
    by (simpl; repeat (first [left; reflexivity | right])).
  assert (Hr : In "success" spadl_results) by (left; reflexivity).
  assert (Hb : In "foot" spadl_bodyparts) by (left; reflexivity).
  destruct (unmapped_kind_is_dropped spadl_actiontypes spadl_results
              spadl_bodyparts ev_substitution eq_refl Ha Hr Hb)
    as (H1 & _ & _ & H4).
  split; [exact H1 | apply H4; discriminate].
Defined.

(** ** Fouls *)

(** C10. A foul-committed event has no entry in the dispatch table: it gets
    the default mapper, not the foul mapper, is classified as the
    placeholder (non_action, success, foot), and its record is not a row of
    any assembled table.  No reachable mapper returns the type foul, so no
    row of an assembled table has the type foul. *)
Theorem foul_events_never_become_actions
    (actiontypes results bodyparts : list string) (event : Event) :
  event_type event = EventType.FOUL_COMMITTED ->
  has_key events EventType.FOUL_COMMITTED = false
  /\ parser event = _parse_event_as_non_action
  /\ parser event event = ("non_action", "success", "foot")
  /\ parser event event <> _parse_foul_event event
  /\ (forall evs table row,
        assemble actiontypes results bodyparts evs = Ok table ->
        In row table ->
        make_action actiontypes results bodyparts event <> Ok (action row))
  /\ (forall e, triple_type (parser e e) <> "foul")
  /\ (forall evs table row,
        assemble actiontypes results bodyparts evs = Ok table ->
        In row table ->
        nth_error actiontypes (type_id (action row)) <> Some "foul").
Proof.
  intros Hty.
  assert (Hkey : has_key events (event_type event) = false)
    by (rewrite Hty; reflexivity).
  split; [reflexivity|].
  split; [exact (parser_unmapped _ Hkey)|].
  split; [rewrite (parser_unmapped _ Hkey); reflexivity|].
  split; [rewrite (parser_unmapped _ Hkey); discriminate|].
  split; [|split].
  - intros evs table row H Hrow.
    exact (unmapped_not_in_table _ _ _ _ _ _ _ Hkey H Hrow).
  - exact parser_type_not_foul.
  - intros evs table row H Hrow.
    destruct (assemble_row_origin _ _ _ _ _ _ H Hrow)
      as (e' & na & _ & Hmk & _).
    destruct (make_action_fields _ _ _ _ _ Hmk)
      as (t & r & b & Hp & _ & _ & _ & Ht & _).
    apply _parse_event_type in Hp. destruct Hp as (Hp & _).
    apply index_nth_error in Hp. rewrite Ht, Hp.
    intros Heq. injection Heq as Heq.
    exact (parser_type_not_foul e' Heq).
Qed.

Lemma foul_events_never_become_actions_witness :
  event_type ev_foul = EventType.FOUL_COMMITTED
  /\ parser ev_foul ev_foul = ("non_action", "success", "foot")
  /\ (forall row, In row sample_table ->
        nth_error spadl_actiontypes (type_id (action row)) <> Some "foul").
Proof.
  split; [reflexivity|].
  destruct (foul_events_never_become_actions spadl_actiontypes spadl_results
              spadl_bodyparts ev_foul eq_refl)
    as (_ & _ & H3 & _ & _ & _ & H7).
  split; [exact H3|].
  intros row Hrow. exact (H7 _ _ _ sample_assemble_ok Hrow).
Defined.

(** ** Exceptions of the entry point *)

Lemma convert_without_kloppy (actiontypes results bodyparts : list string)
    (field_length field_width : Q)
    (transform : Orientation.t -> CoordinateSystem ->
                 EventDataset.t -> EventDataset.t)
    (_add_dribbles : list ActionRow -> list ActionRow)
    (SPADLSchema : list ActionRow -> result (list ActionRow))
    (dataset : EventDataset.t) (home_team_id : Z) :
  convert_to_actions actiontypes results bodyparts field_length field_width
    transform _add_dribbles SPADLSchema false dataset home_team_id
  = Raise (ImportError "Kloppy is required. Install with `pip install kloppy`.").
Proof. reflexivity. Qed.

(** With Kloppy installed, a dataset without events makes [sort_values]
    raise before the schema is reached. *)
Lemma convert_empty_dataset (actiontypes results bodyparts : list string)
    (field_length field_width : Q)
    (transform : Orientation.t -> CoordinateSystem ->
                 EventDataset.t -> EventDataset.t)
    (_add_dribbles : list ActionRow -> list ActionRow)
    (SPADLSchema : list ActionRow -> result (list ActionRow))
    (dataset : EventDataset.t) (home_team_id : Z) :
  EventDataset.events
    (transform Orientation.FIXED_HOME_AWAY
               (_SoccerActionCoordinateSystem field_length field_width false)
               dataset) = [] ->
  convert_to_actions actiontypes results bodyparts field_length field_width
    transform _add_dribbles SPADLSchema true dataset home_team_id
  = Raise (KeyError "game_id").
Proof.
  intros H. unfold convert_to_actions. cbn [negb]. rewrite H. reflexivity.
Qed.

(** C7. Without Kloppy the entry point raises ImportError whatever the
    dataset, the configuration and the collaborators are, so before any
    transformation or assembly; but it is not the only exception raised
    before schema validation: with Kloppy installed, the dataset without
    events raises KeyError from the sort of a frame that has no columns. *)
Theorem import_error_is_not_the_only_error :
  (forall actiontypes results bodyparts field_length field_width transform
          _add_dribbles SPADLSchema dataset home_team_id,
      convert_to_actions actiontypes results bodyparts field_length
        field_width transform _add_dribbles SPADLSchema false dataset
        home_team_id
      = Raise (ImportError
                 "Kloppy is required. Install with `pip install kloppy`."))
  /\ sample_convert true [] 1 = Raise (KeyError "game_id")
  /\ (forall msg, sample_convert true [] 1 <> Raise (ImportError msg))
  /\ sample_convert true [] 1 <> Raise SchemaError.
Proof.
  split; [exact convert_without_kloppy|].
  assert (H : sample_convert true [] 1 = Raise (KeyError "game_id"))
    by (apply convert_empty_dataset; reflexivity).
  split; [exact H|]. rewrite H. split; [intros msg|]; discriminate.
Qed.

(** The mappers return names of three fixed lists. *)
Lemma parser_range (event : Event) :
  In (triple_type (parser event event)) mapper_types
  /\ In (triple_result (parser event event)) mapper_results
  /\ In (triple_bodypart (parser event event)) mapper_bodyparts.
Proof.
  unfold parser, triple_type, triple_result, triple_bodypart.
  destruct (event_type event); cbn [dict_get events EventType.eqb];
    unfold _parse_event_as_non_action, _parse_pass_event, _parse_shot_event,
      _parse_dribble_event, _parse_carry_event, _parse_interception_event;
    (split; [|split]);
    repeat match goal with
           | |- context [if ?c then _ else _] => destruct c
           end;
    cbn [fst snd mapper_types mapper_results mapper_bodyparts In];
    repeat (first [left; reflexivity | right]).
Qed.

(** When the vocabulary tables list every name the mappers return, a dataset
    with at least one event is assembled without an exception. *)
Lemma assemble_nonempty_Ok (actiontypes results bodyparts : list string)
    (evs : list Event) :
  incl mapper_types actiontypes ->
  incl mapper_results results ->
  incl mapper_bodyparts bodyparts ->
  evs <> [] ->
  exists table, assemble actiontypes results bodyparts evs = Ok table.
Proof.
  intros Ha Hr Hb Hne.
  assert (Hmk : forall e, exists a,
               make_action actiontypes results bodyparts e = Ok a).
  { intros e. destruct (parser_range e) as (Ht & Hr' & Hb').
    destruct (index_In _ _ (Ha _ Ht)) as (t & Hit).
    destruct (index_In _ _ (Hr _ Hr')) as (r & Hir).
    destruct (index_In _ _ (Hb _ Hb')) as (b & Hib).
    unfold make_action, _parse_event.
    unfold triple_type, triple_result, triple_bodypart in Hit, Hir, Hib.
    destruct (parser e e) as [[a0 r0] b0]. cbn [fst snd] in Hit, Hir, Hib.
    rewrite Hit, Hir, Hib. cbn [bind]. eauto. }
  assert (Hall : forall l, exists prov,
               mapM (make_action actiontypes results bodyparts) l = Ok prov).
  { induction l as [|e l (prov & IH)]; [exists []; reflexivity|].
    destruct (Hmk e) as (a & Hae).
    exists (a :: prov). cbn [mapM]. rewrite Hae, IH. reflexivity. }
  destruct (Hall evs) as (prov & Hprov).
  assert (Hna : In "non_action" actiontypes) by (apply Ha; left; reflexivity).
  destruct (index_In _ _ Hna) as (na & Hina).
  unfold assemble. rewrite Hprov. cbn [bind].
  rewrite sort_values_nonempty.
  - cbn [bind]. rewrite Hina. cbn [bind]. eauto.
  - intros ->. apply mapM_length in Hprov.
    destruct evs; [congruence | discriminate].
Qed.

(* ================================================================== *)
(** * Further properties of the mappers *)

Lemma parser_take_on (event : Event) :
  event_type event = EventType.TAKE_ON -> parser event = _parse_dribble_event.
Proof. intros H. unfold parser. rewrite H. reflexivity. Qed.

Ltac by_tags_or :=
  tag_facts;
  repeat match goal with
         | H : contains _ _ = _ |- _ => rewrite H; clear H
         end;
  rewrite ?orb_true_r; reflexivity.

(** X1. The result of a pass: an incomplete or out-of-bounds pass fails, an
    offside pass is offside, and a complete pass or a pass without a result
    succeeds. *)
Theorem pass_result_mapping (event : Event) :
  event_type event = EventType.PASS ->
  (pass_result event = Some PassResult.INCOMPLETE
   \/ pass_result event = Some PassResult.OUT ->
   triple_result (parser event event) = "fail")
  /\ (pass_result event = Some PassResult.OFFSIDE ->
      triple_result (parser event event) = "offside")
  /\ (pass_result event = Some PassResult.COMPLETE
      \/ pass_result event = None ->
      triple_result (parser event event) = "success").
Proof.
  intros Hty. rewrite (parser_pass _ Hty).
  unfold triple_result, _parse_pass_event, pass_result_is. cbn [fst snd].
  split; [|split].
  - intros [H|H]; rewrite H; reflexivity.
  - intros H; rewrite H; reflexivity.
  - intros [H|H]; rewrite H; reflexivity.
Qed.

Lemma pass_result_mapping_witness :
  triple_result (parser ev_corner ev_corner) = "fail"
  /\ triple_result (parser ev_headed_pass ev_headed_pass) = "offside"
  /\ triple_result (parser ev_freekick_cross ev_freekick_cross) = "success".
Proof.
  split; [|split].
  - apply (proj1 (pass_result_mapping ev_corner eq_refl)).
    left; reflexivity.
  - apply (proj1 (proj2 (pass_result_mapping ev_headed_pass eq_refl))).
    reflexivity.
  - apply (proj2 (proj2 (pass_result_mapping ev_freekick_cross eq_refl))).
    left; reflexivity.
Defined.

(** X2. The body part of a pass: the head tag wins; else a right-foot or
    left-foot tag gives foot; else a chest or other tag gives other; a pass
    with none of these tags is a foot pass. *)
Theorem pass_bodypart_precedence (event : Event) :
  event_type event = EventType.PASS ->
  (has_tag event (QBodyPart BodyPart.HEAD) ->
   triple_bodypart (parser event event) = "head")
  /\ (~ has_tag event (QBodyPart BodyPart.HEAD) ->
      has_tag event (QBodyPart BodyPart.RIGHT_FOOT)
      \/ has_tag event (QBodyPart BodyPart.LEFT_FOOT) ->
      triple_bodypart (parser event event) = "foot")
  /\ (~ has_tag event (QBodyPart BodyPart.HEAD) ->
      ~ has_tag event (QBodyPart BodyPart.RIGHT_FOOT) ->
      ~ has_tag event (QBodyPart BodyPart.LEFT_FOOT) ->
      has_tag event (QBodyPart BodyPart.CHEST)
      \/ has_tag event (QBodyPart BodyPart.OTHER) ->
      triple_bodypart (parser event event) = "other")
  /\ (~ has_tag event (QBodyPart BodyPart.HEAD) ->
      ~ has_tag event (QBodyPart BodyPart.RIGHT_FOOT) ->
      ~ has_tag event (QBodyPart BodyPart.LEFT_FOOT) ->
      ~ has_tag event (QBodyPart BodyPart.CHEST) ->
      ~ has_tag event (QBodyPart BodyPart.OTHER) ->
      triple_bodypart (parser event event) = "foot").
Proof.
  intros Hty. rewrite (parser_pass _ Hty).
  unfold triple_bodypart, _parse_pass_event. cbn [fst snd].
  split; [|split; [|split]].
  - intros Hh. by_tags_or.
  - intros Hh [Hf|Hf]; by_tags_or.
  - intros Hh Hr Hl [Hc|Hc]; by_tags_or.
  - intros Hh Hr Hl Hc Ho. by_tags_or.
Qed.

Lemma pass_bodypart_precedence_witness :
  triple_bodypart (parser ev_headed_pass ev_headed_pass) = "head"
  /\ triple_bodypart (parser ev_corner ev_corner) = "foot".
Proof.
  split.
  - apply (proj1 (pass_bodypart_precedence ev_headed_pass eq_refl)).
    right; left; reflexivity.
  - apply (proj2 (proj2 (proj2 (pass_bodypart_precedence ev_corner eq_refl))));
      unfold has_tag; simpl; intuition discriminate.
Defined.

(** X3. The body part of a shot: the head tag wins; else a right-foot,
    left-foot or drop-kick tag gives foot; a shot with none of these tags
    gets other (where a pass would get foot). *)
Theorem shot_bodypart_precedence (event : Event) :
  event_type event = EventType.SHOT ->
  (has_tag event (QBodyPart BodyPart.HEAD) ->
   triple_bodypart (parser event event) = "head")
  /\ (~ has_tag event (QBodyPart BodyPart.HEAD) ->
      has_tag event (QBodyPart BodyPart.RIGHT_FOOT)
      \/ has_tag event (QBodyPart BodyPart.LEFT_FOOT)
      \/ has_tag event (QBodyPart BodyPart.DROP_KICK) ->
      triple_bodypart (parser event event) = "foot")
  /\ (~ has_tag event (QBodyPart BodyPart.HEAD) ->
      ~ has_tag event (QBodyPart BodyPart.RIGHT_FOOT) ->
      ~ has_tag event (QBodyPart BodyPart.LEFT_FOOT) ->
      ~ has_tag event (QBodyPart BodyPart.DROP_KICK) ->
      triple_bodypart (parser event event) = "other").
Proof.
  intros Hty. rewrite (parser_shot _ Hty).
  unfold triple_bodypart, _parse_shot_event.
  destruct (shot_result_is event ShotResult.GOAL),
    (shot_result_is event ShotResult.OWN_GOAL); cbn [fst snd];
    (split; [|split]);
    first [ intros Hh; by_tags_or
          | intros Hh [Hf|[Hf|Hf]]; by_tags_or
          | intros Hh Hr Hl Hd; by_tags_or ].
Qed.

Lemma shot_bodypart_precedence_witness :
  triple_bodypart (parser ev_own_goal ev_own_goal) = "head"
  /\ triple_bodypart (parser ev_saved_freekick ev_saved_freekick) = "other".
Proof.
  split.
  - apply (proj1 (shot_bodypart_precedence ev_own_goal eq_refl)).
    right; left; reflexivity.
  - apply (proj2 (proj2 (shot_bodypart_precedence ev_saved_freekick eq_refl)));
      unfold has_tag; simpl; intuition discriminate.
Defined.

(** X4. A take-on is always of type take_on with body part foot, whatever
    its tags; it succeeds exactly when its result is COMPLETE and fails on
    any other result and on a missing one. *)
Theorem take_on_mapping (event : Event) :
  event_type event = EventType.TAKE_ON ->
  triple_type (parser event event) = "take_on"
  /\ triple_bodypart (parser event event) = "foot"
  /\ (take_on_result event = Some TakeOnResult.COMPLETE ->
      triple_result (parser event event) = "success")
  /\ (take_on_result event <> Some TakeOnResult.COMPLETE ->
      triple_result (parser event event) = "fail").
Proof.
  intros Hty. rewrite (parser_take_on _ Hty).
  unfold triple_type, triple_bodypart, triple_result, _parse_dribble_event,
    take_on_result_is. cbn [fst snd].
  split; [reflexivity|]. split; [reflexivity|]. split.
  - intros ->. reflexivity.
  - intros Hr. destruct (take_on_result event) as [[ | | ]|];
      first [reflexivity | exfalso; apply Hr; reflexivity].
Qed.

Lemma take_on_mapping_witness :
  triple_type (parser ev_take_on ev_take_on) = "take_on"
  /\ triple_result (parser ev_take_on ev_take_on) = "fail".
Proof.
  split.
  - apply (proj1 (take_on_mapping ev_take_on eq_refl)).
  - apply (proj2 (proj2 (proj2 (take_on_mapping ev_take_on eq_refl)))).
    discriminate.
Defined.

(** The type a mapper returns, by the kind of the event. *)
Lemma parser_type_by_kind (event : Event) :
  match event_type event with
  | EventType.PASS => In (triple_type (parser event event)) pass_types
  | EventType.SHOT => In (triple_type (parser event event)) shot_types
  | EventType.TAKE_ON => triple_type (parser event event) = "take_on"
  | EventType.CARRY => triple_type (parser event event) = "dribble"
  | EventType.RECOVERY => triple_type (parser event event) = "interception"
  | _ => triple_type (parser event event) = "non_action"
  end.
Proof.
  unfold parser, triple_type.
  destruct (event_type event); cbn [dict_get events EventType.eqb];
    try reflexivity.
  - unfold _parse_pass_event. cbn [fst snd].
    repeat match goal with
           | |- context [if ?c then _ else _] => destruct c
           end;
    cbn [pass_types In]; repeat (first [left; reflexivity | right]).
  - unfold _parse_shot_event.
    repeat match goal with
           | |- context [if ?c then _ else _] => destruct c
           end;
    cbn [fst snd shot_types In]; repeat (first [left; reflexivity | right]).
Qed.

Ltac in_names :=
  repeat match goal with
         | H : In _ (_ :: _) |- _ => destruct H as [H|H]
         | H : In _ [] |- _ => destruct H
         end.

(** X5. The action type tells the kind of the event it was made from: the
    eight pass types come from pass events only, the three shot types and
    bad_touch from shots only, take_on from take-ons, dribble from carries,
    interception from recoveries, and non_action from every other kind
    (GENERIC included). *)
Theorem action_type_partition (event : Event) :
  (event_type event = EventType.PASS
   <-> In (triple_type (parser event event)) pass_types)
  /\ (event_type event = EventType.SHOT
      <-> In (triple_type (parser event event)) shot_types)
  /\ (event_type event = EventType.TAKE_ON
      <-> triple_type (parser event event) = "take_on")
  /\ (event_type event = EventType.CARRY
      <-> triple_type (parser event event) = "dribble")
  /\ (event_type event = EventType.RECOVERY
      <-> triple_type (parser event event) = "interception")
  /\ (is_action_kind event = false
      <-> triple_type (parser event event) = "non_action").
Proof.
  pose proof (parser_type_by_kind event) as H.
  unfold is_action_kind.
  destruct (event_type event); unfold pass_types, shot_types in *;
    repeat split; intros H';
    first [ reflexivity | discriminate | exact H
          | (in_names; rewrite <- H in *; discriminate)
          | (in_names; rewrite <- H' in *; discriminate)
          | (in_names; congruence) ].
Qed.

(** X6. Type and result agree across all mappers: the type is bad_touch
    exactly when the result is own_goal, which happens exactly for a shot
    whose outcome is OWN_GOAL; and the result offside is given exactly to a
    pass whose outcome is OFFSIDE. *)
Theorem type_result_consistency (event : Event) :
  (triple_type (parser event event) = "bad_touch"
   <-> triple_result (parser event event) = "own_goal")
  /\ (triple_result (parser event event) = "own_goal"
      <-> event_type event = EventType.SHOT
          /\ shot_result event = Some ShotResult.OWN_GOAL)
  /\ (triple_result (parser event event) = "offside"
      <-> event_type event = EventType.PASS
          /\ pass_result event = Some PassResult.OFFSIDE).
Proof.
  destruct event as [eid per ts tm pl co qs bd].
  unfold parser, event_type, shot_result, pass_result, triple_type,
    triple_result.
  cbn [body].
  destruct bd as [ | [[ | | | ]|] rc | [[ | | | | | ]|] rc | r | ec
                  | | | | | | | | ];
    cbn [dict_get events EventType.eqb];
    unfold _parse_event_as_non_action, _parse_pass_event, _parse_shot_event,
      _parse_dribble_event, _parse_carry_event, _parse_interception_event,
      pass_result_is, shot_result_is, pass_result, shot_result;
    cbn [body PassResult.eqb ShotResult.eqb orb fst snd];
    repeat match goal with
           | |- context [if ?c then _ else _] => destruct c
           end;
    cbn [fst snd];
    repeat split; intros;
    first [ reflexivity | discriminate
          | match goal with
            | H : _ /\ _ |- _ => destruct H; discriminate
            end ].
Qed.




(* ================================================================== *)
(** * Further properties of the vocabulary lookup *)



Lemma index_Raise (name : string) (table : list string) (x : exn) :
  index name table = Raise x -> x = ValueError name /\ ~ In name table.
Proof.
  induction table as [|s table IH]; simpl; intros H.
  - injection H as <-. split; [reflexivity | intros []].
  - destruct (String.eqb_spec s name) as [->|Hs]; [discriminate|].
    destruct (index name table) as [i|e]; simpl in H; [discriminate|].
    injection H as <-. destruct (IH eq_refl) as [-> Hn].
    split; [reflexivity|]. intros [Hin|Hin]; [congruence | exact (Hn Hin)].
Qed.

Lemma _parse_event_Raise (actiontypes results bodyparts : list string)
    (event : Event) (x : exn) :
  _parse_event actiontypes results bodyparts event = Raise x ->
  exists n, x = ValueError n /\ missing_name actiontypes results bodyparts n.
Proof.
  destruct (parser_range event) as (Rt & Rr & Rb).
  intros H. unfold _parse_event in H.
  unfold triple_type, triple_result, triple_bodypart in Rt, Rr, Rb.
  destruct (parser event event) as [[a0 r0] b0].
  cbn [fst snd] in Rt, Rr, Rb.
  destruct (index a0 actiontypes) as [t|e] eqn:Ht; cbn [bind] in H.
  - destruct (index r0 results) as [r|e] eqn:Hr; cbn [bind] in H.
    + destruct (index b0 bodyparts) as [b|e] eqn:Hb; cbn [bind] in H;
        [discriminate|].
      injection H as <-. apply index_Raise in Hb. destruct Hb as [-> Hb].
      exists b0. split; [reflexivity|]. right; right. auto.
    + injection H as <-. apply index_Raise in Hr. destruct Hr as [-> Hr].
      exists r0. split; [reflexivity|]. right; left. auto.
  - injection H as <-. apply index_Raise in Ht. destruct Ht as [-> Ht].
    exists a0. split; [reflexivity|]. left. auto.
Qed.



(* ================================================================== *)
(** * Further properties of the assembler *)

Lemma mapM_Raise {A B : Type} (f : A -> result B) (l : list A) (x : exn) :
  mapM f l = Raise x -> exists a, In a l /\ f a = Raise x.
Proof.
  induction l as [|a l IH]; simpl; intros H; [discriminate|].
  destruct (f a) as [b|e] eqn:Hfa; cbn [bind] in H.
  - destruct (mapM f l) as [bs|e]; cbn [bind] in H; [discriminate|].
    destruct (IH H) as (a' & Ha' & Hf). exists a'. auto.
  - injection H as <-. exists a. auto.
Qed.

Lemma make_action_Raise (actiontypes results bodyparts : list string)
    (event : Event) (x : exn) :
  make_action actiontypes results bodyparts event = Raise x ->
  _parse_event actiontypes results bodyparts event = Raise x.
Proof.
  unfold make_action. cbv zeta.
  destruct (_parse_event actiontypes results bodyparts event); cbn [bind];
    intros H; [discriminate | injection H as ->; reflexivity].
Qed.

(** X9. The exceptions of the assembler: a dataset without events raises
    KeyError on the first sort column; a dataset with events raises only
    ValueError, and only on a name a mapper returns that its vocabulary
    table does not list; when the tables list all those names a dataset with
    events is assembled without an exception. *)
Theorem assemble_exceptions (actiontypes results bodyparts : list string)
    (evs : list Event) :
  (evs = [] ->
   assemble actiontypes results bodyparts evs = Raise (KeyError "game_id"))
  /\ (forall x,
        assemble actiontypes results bodyparts evs = Raise x ->
        (evs = [] /\ x = KeyError "game_id")
        \/ (evs <> []
            /\ exists n, x = ValueError n
                         /\ missing_name actiontypes results bodyparts n))
  /\ (evs <> [] ->
      (forall n, ~ missing_name actiontypes results bodyparts n) ->
      exists table, assemble actiontypes results bodyparts evs = Ok table).
Proof.
  split; [intros ->; reflexivity|]. split.
  - intros x H. unfold assemble in H.
    destruct (mapM _ evs) as [prov|e] eqn:Hprov; cbn [bind] in H.
    + destruct prov as [|a prov].
      * left. apply mapM_length in Hprov.
        destruct evs; [|discriminate].
        injection H as <-. auto.
      * right. split; [intros ->; discriminate|].
        cbn [sort_values bind] in H.
        destruct (index "non_action" actiontypes) as [na|e] eqn:Hna;
          cbn [bind] in H; [discriminate|].
        injection H as <-. apply index_Raise in Hna. destruct Hna as [-> Hna].
        exists "non_action". split; [reflexivity|].
        left. split; [left; reflexivity | exact Hna].
    + injection H as <-. right.
      destruct (mapM_Raise _ _ _ Hprov) as (e0 & Hin & He0).
      split; [intros ->; destruct Hin|].
      apply make_action_Raise in He0.
      exact (_parse_event_Raise _ _ _ _ _ He0).
  - intros Hne Hall.
    apply assemble_nonempty_Ok; [| | |exact Hne]; intros n Hn.
    + destruct (in_dec string_dec n actiontypes) as [Hi|Hi]; [exact Hi|].
      exfalso. apply (Hall n). left. auto.
    + destruct (in_dec string_dec n results) as [Hi|Hi]; [exact Hi|].
      exfalso. apply (Hall n). right; left. auto.
    + destruct (in_dec string_dec n bodyparts) as [Hi|Hi]; [exact Hi|].
      exfalso. apply (Hall n). right; right. auto.
Qed.

Lemma assemble_exceptions_witness :
  assemble spadl_actiontypes spadl_results spadl_bodyparts []
  = Raise (KeyError "game_id")
  /\ exists n,
      assemble spadl_actiontypes ["success"; "fail"] spadl_bodyparts
        [ev_carry; ev_own_goal] = Raise (ValueError n)
      /\ missing_name spadl_actiontypes ["success"; "fail"] spadl_bodyparts n.
Proof.
  split.
  - exact (proj1 (assemble_exceptions spadl_actiontypes spadl_results
                    spadl_bodyparts []) eq_refl).
  - destruct (proj1 (proj2 (assemble_exceptions spadl_actiontypes
                              ["success"; "fail"] spadl_bodyparts
                              [ev_carry; ev_own_goal]))
                (ValueError "own_goal") eq_refl)
      as [[Hnil _]|(_ & n & Hn & Hm)]; [discriminate|].
    exists n. injection Hn as <-. split; [reflexivity | exact Hm].
Defined.

(** X10. Coordinate pairs are nullable as a unit: in every record the two
    start coordinates are both present or both absent, and so are the two
    end coordinates.  The start is absent exactly when the event has no
    coordinates; the end is absent exactly when the event has no
    coordinates and no kind-specific end location, so a record with a start
    location always has an end location. *)
Theorem coordinates_nullable_as_unit
    (actiontypes results bodyparts : list string) (event : Event) (a : Action) :
  make_action actiontypes results bodyparts event = Ok a ->
  (start_x a = None <-> start_y a = None)
  /\ (end_x a = None <-> end_y a = None)
  /\ (start_x a = None <-> coordinates event = None)
  /\ (end_x a = None
      <-> coordinates event = None /\ ~ kind_rule_applies event)
  /\ (start_x a <> None -> end_x a <> None).
Proof.
  intros H. unfold make_action in H. inv_bind H. injection H as <-.
  cbn [start_x start_y end_x end_y].
  unfold kind_rule_applies, _get_end_location.
  destruct (body event) as [ | [[ | | | ]|] [rc|] | r [rc|] | r | [ec|]
                            | | | | | | | | ] eqn:Hb;
    destruct (coordinates event) as [c|]; cbn [fst snd];
    repeat split; intros;
    try discriminate; try reflexivity; try congruence;
    try (intros [(? & ?)|[(? & ?)|(? & ? & ?)]]; discriminate);
    repeat match goal with
           | H : _ /\ _ |- _ => destruct H
           | H : _ \/ _ |- _ => destruct H
           | H : exists _, _ |- _ => destruct H
           | H : ~ _ |- _ => exfalso; apply H; eauto
           end;
    try discriminate; try congruence.
Qed.

Lemma coordinates_nullable_as_unit_witness :
  exists a,
    make_action spadl_actiontypes spadl_results spadl_bodyparts ev_substitution
    = Ok a
    /\ (start_x a = None <-> start_y a = None)
    /\ (end_x a = None <-> end_y a = None).
Proof.
  eexists. split; [reflexivity|].
  split.
  - exact (proj1 (coordinates_nullable_as_unit spadl_actiontypes
                    spadl_results spadl_bodyparts ev_substitution _ eq_refl)).
  - exact (proj1 (proj2 (coordinates_nullable_as_unit spadl_actiontypes
                           spadl_results spadl_bodyparts ev_substitution _
                           eq_refl))).
Defined.

Lemma not_action_kind_parser (event : Event) :
  is_action_kind event = false -> parser event = _parse_event_as_non_action.
Proof.
  unfold is_action_kind, parser.
  destruct (event_type event); intros H;
    first [discriminate | reflexivity].
Qed.

Lemma action_kind_type (event : Event) :
  is_action_kind event = true ->
  triple_type (parser event event) <> "non_action".
Proof.
  pose proof (parser_type_by_kind event) as H.
  unfold is_action_kind. unfold pass_types, shot_types in H.
  destruct (event_type event); intros Hk; try discriminate; intros Hna;
    rewrite Hna in H; in_names; discriminate.
Qed.

(** The non-action filter keeps the records of the five action kinds. *)
Lemma retained_is_action_kind (actiontypes results bodyparts : list string)
    (event : Event) (a : Action) (non_action : nat) :
  make_action actiontypes results bodyparts event = Ok a ->
  index "non_action" actiontypes = Ok non_action ->
  retained non_action a = is_action_kind event.
Proof.
  intros Hmk Hna.
  destruct (make_action_fields _ _ _ _ _ Hmk)
    as (t & r & b & Hp & _ & _ & _ & Ht & _).
  apply _parse_event_type in Hp. destruct Hp as (Hp & _).
  unfold retained. rewrite Ht.
  destruct (is_action_kind event) eqn:Hk.
  - apply negb_true_iff, Nat.eqb_neq. intros ->.
    apply index_nth_error in Hp, Hna.
    apply (action_kind_type _ Hk). congruence.
  - rewrite (not_action_kind_parser _ Hk) in Hp.
    unfold triple_type, _parse_event_as_non_action in Hp. cbn [fst] in Hp.
    assert (Heq : t = non_action) by congruence.
    rewrite Heq, Nat.eqb_refl. reflexivity.
Qed.

Lemma mapM_filter {A B : Type} (f : A -> result B) (p : A -> bool)
    (q : B -> bool) (l : list A) (bs : list B) :
  mapM f l = Ok bs ->
  (forall a b, In a l -> f a = Ok b -> q b = p a) ->
  mapM f (filter p l) = Ok (filter q bs).
Proof.
  revert bs; induction l as [|a l IH]; intros bs H Hpq.
  - injection H as <-. reflexivity.
  - apply mapM_Ok_cons in H. destruct H as (b & bs' & Hfa & Hl & ->).
    cbn [filter]. rewrite (Hpq a b (or_introl eq_refl) Hfa).
    assert (IH' : mapM f (filter p l) = Ok (filter q bs'))
      by (apply IH; [exact Hl | intros a' b' Ha'; apply Hpq; right; exact Ha']).
    destruct (p a); [|exact IH'].
    cbn [mapM]. rewrite Hfa, IH'. reflexivity.
Qed.

Lemma mapM_map {A B C : Type} (f : A -> result B) (g : B -> C) (h : A -> C)
    (l : list A) (bs : list B) :
  mapM f l = Ok bs ->
  (forall a b, f a = Ok b -> g b = h a) ->
  map g bs = map h l.
Proof.
  revert bs; induction l as [|a l IH]; intros bs H Hgh.
  - injection H as <-. reflexivity.
  - apply mapM_Ok_cons in H. destruct H as (b & bs' & Hfa & Hl & ->).
    cbn [map]. rewrite (Hgh _ _ Hfa), (IH _ Hl Hgh). reflexivity.
Qed.

Lemma make_action_event_id (actiontypes results bodyparts : list string)
    (event : Event) (a : Action) :
  make_action actiontypes results bodyparts event = Ok a ->
  original_event_id a = event_id event.
Proof.
  unfold make_action. intros H. inv_bind H. injection H as <-. reflexivity.
Qed.

(** The table in terms of the events of the five action kinds. *)
Lemma assemble_action_kinds (actiontypes results bodyparts : list string)
    (evs : list Event) (table : list ActionRow) :
  assemble actiontypes results bodyparts evs = Ok table ->
  exists provisional non_action,
    mapM (make_action actiontypes results bodyparts) evs = Ok provisional
    /\ index "non_action" actiontypes = Ok non_action
    /\ mapM (make_action actiontypes results bodyparts)
            (filter is_action_kind evs)
       = Ok (filter (retained non_action) provisional)
    /\ map action table
       = filter (retained non_action) (stable_sort key_leb provisional).
Proof.
  intros H.
  destruct (assemble_Ok_inv _ _ _ _ _ H) as (prov & na & Hprov & _ & Hna & ->).
  exists prov, na. split; [exact Hprov|]. split; [exact Hna|]. split.
  - apply (mapM_filter _ _ _ _ _ Hprov).
    intros e a _ Hmk. exact (retained_is_action_kind _ _ _ _ _ _ Hmk Hna).
  - apply set_action_id_actions.
Qed.

(** X11. The rows of the assembled table are exactly the records of the
    pass, shot, take-on, carry and recovery events of the dataset, sorted by
    the key: one row per such event and none for any other kind, so the
    event identifiers of the table are a rearrangement of those events'. *)
Theorem table_is_sorted_action_records
    (actiontypes results bodyparts : list string)
    (evs : list Event) (table : list ActionRow) :
  assemble actiontypes results bodyparts evs = Ok table ->
  exists records,
    mapM (make_action actiontypes results bodyparts)
         (filter is_action_kind evs) = Ok records
    /\ map action table = stable_sort key_leb records
    /\ List.length table = List.length (filter is_action_kind evs)
    /\ Permutation (map original_event_id (map action table))
                   (map event_id (filter is_action_kind evs)).
Proof.
  intros H.
  destruct (assemble_action_kinds _ _ _ _ _ H)
    as (prov & na & Hprov & Hna & Hrec & Hout).
  exists (filter (retained na) prov).
  assert (Hsorted : map action table
                    = stable_sort key_leb (filter (retained na) prov))
    by (rewrite Hout;
        apply (filter_stable_sort key_leb key_leb_total key_leb_trans)).
  split; [exact Hrec|]. split; [exact Hsorted|]. split.
  - rewrite <- (length_map action), Hsorted.
    rewrite (Permutation_length (stable_sort_Permutation key_leb _)).
    apply (mapM_length _ _ _ Hrec).
  - rewrite Hsorted.
    rewrite <- (mapM_map _ original_event_id event_id _ _ Hrec
                  (make_action_event_id actiontypes results bodyparts)).
    apply Permutation_map, stable_sort_Permutation.
Qed.

Lemma table_is_sorted_action_records_witness :
  sample_assemble sample_events = Ok sample_table
  /\ List.length sample_table = 6%nat
  /\ Permutation (map original_event_id (map action sample_table))
                 ["e1"; "e2"; "e3"; "e4"; "e7"; "e8"].
Proof.
  split; [exact sample_assemble_ok|].
  destruct (table_is_sorted_action_records _ _ _ _ _ sample_assemble_ok)
    as (records & _ & _ & Hlen & Hperm).
  split; [exact Hlen | exact Hperm].
Defined.

Lemma stable_sort_sorted_id {A : Type} (leb : A -> A -> bool) (l : list A) :
  StronglySorted (fun a b => leb a b = true) l -> stable_sort leb l = l.
Proof.
  induction 1 as [|a l Hl IH Ha]; [reflexivity|].
  cbn [stable_sort]. rewrite IH. apply insert_below_all, Ha.
Qed.

Lemma mapM_StronglySorted {A B : Type} (f : A -> result B)
    (R : A -> A -> Prop) (R' : B -> B -> Prop) (l : list A) (bs : list B) :
  (forall a1 a2 b1 b2, f a1 = Ok b1 -> f a2 = Ok b2 -> R a1 a2 -> R' b1 b2) ->
  mapM f l = Ok bs -> StronglySorted R l -> StronglySorted R' bs.
Proof.
  intros HR. revert bs; induction l as [|a l IH]; intros bs H Hs.
  - injection H as <-. constructor.
  - apply mapM_Ok_cons in H. destruct H as (b & bs' & Hfa & Hl & ->).
    inversion Hs as [|a' l' Hs' Ha]; subst.
    constructor; [apply IH; assumption|].
    rewrite Forall_forall in *. intros b' Hb'.
    destruct (mapM_In _ _ _ Hl _ Hb') as (a' & Ha' & Hfa').
    apply (HR a a' b b' Hfa Hfa'). apply Ha, Ha'.
Qed.

Lemma make_action_key (actiontypes results bodyparts : list string)
    (e1 e2 : Event) (a1 a2 : Action) :
  make_action actiontypes results bodyparts e1 = Ok a1 ->
  make_action actiontypes results bodyparts e2 = Ok a2 ->
  key_leb a1 a2 = event_leb e1 e2.
Proof.
  intros H1 H2.
  destruct (make_action_fields _ _ _ _ _ H1)
    as (t1 & r1 & b1 & _ & Hg1 & Hp1 & Ht1 & _).
  destruct (make_action_fields _ _ _ _ _ H2)
    as (t2 & r2 & b2 & _ & Hg2 & Hp2 & Ht2 & _).
  unfold key_leb, event_leb.
  rewrite Hg1, Hg2, Hp1, Hp2, Ht1, Ht2. reflexivity.
Qed.

(** X12. A dataset whose events are already in (period, timestamp) order is
    not reordered: the rows of the table are the records of its pass, shot,
    take-on, carry and recovery events in input order. *)
Theorem sorted_input_keeps_order (actiontypes results bodyparts : list string)
    (evs : list Event) (table : list ActionRow) :
  StronglySorted event_le evs ->
  assemble actiontypes results bodyparts evs = Ok table ->
  mapM (make_action actiontypes results bodyparts) (filter is_action_kind evs)
  = Ok (map action table)
  /\ map original_event_id (map action table)
     = map event_id (filter is_action_kind evs).
Proof.
  intros Hs H.
  destruct (assemble_action_kinds _ _ _ _ _ H)
    as (prov & na & Hprov & Hna & Hrec & Hout).
  assert (Hps : StronglySorted (fun a b => key_leb a b = true) prov).
  { apply (mapM_StronglySorted
             (make_action actiontypes results bodyparts) event_le
             (fun a b => key_leb a b = true) evs prov); [|exact Hprov|exact Hs].
    intros e1 e2 a1 a2 H1 H2 Hle.
    rewrite (make_action_key _ _ _ _ _ _ _ H1 H2). exact Hle. }
  rewrite (stable_sort_sorted_id _ _ Hps) in Hout.
  rewrite Hout. split; [exact Hrec|].
  apply (mapM_map _ original_event_id event_id _ _ Hrec
           (make_action_event_id actiontypes results bodyparts)).
Qed.

Lemma sorted_events_sorted : StronglySorted event_le sorted_events.
Proof.
  unfold sorted_events.
  repeat (constructor; [|repeat (constructor; [reflexivity|]); constructor]).
  constructor.
Defined.

Lemma sorted_assemble_ok : sample_assemble sorted_events = Ok sorted_table.
Proof. vm_compute. reflexivity. Defined.

Lemma sorted_input_keeps_order_witness :
  StronglySorted event_le sorted_events
  /\ sample_assemble sorted_events = Ok sorted_table
  /\ map original_event_id (map action sorted_table)
     = ["e3"; "e1"; "e7"; "e4"; "e10"; "e11"].
Proof.
  split; [exact sorted_events_sorted|].
  split; [exact sorted_assemble_ok|].
  exact (proj2 (sorted_input_keeps_order _ _ _ _ _
                  sorted_events_sorted sorted_assemble_ok)).
Defined.

Lemma filter_all_false {A : Type} (p : A -> bool) (l : list A) :
  (forall a, In a l -> p a = false) -> filter p l = [].
Proof.
  induction l as [|a l IH]; intros H; [reflexivity|].
  cbn [filter]. rewrite (H a (or_introl eq_refl)).
  apply IH. intros b Hb. apply H. right; exact Hb.
Qed.

Lemma make_action_non_action_kind (actiontypes results bodyparts : list string)
    (event : Event) :
  is_action_kind event = false ->
  In "non_action" actiontypes -> In "success" results -> In "foot" bodyparts ->
  exists a, make_action actiontypes results bodyparts event = Ok a.
Proof.
  intros Hk Ha Hr Hb.
  destruct (index_In _ _ Ha) as (t & Ht).
  destruct (index_In _ _ Hr) as (r & Hr').
  destruct (index_In _ _ Hb) as (b & Hb').
  unfold make_action, _parse_event.
  rewrite (not_action_kind_parser _ Hk). unfold _parse_event_as_non_action.
  rewrite Ht, Hr', Hb'. cbn [bind]. eauto.
Qed.

(** X13. A dataset that has events, none of them a pass, shot, take-on,
    carry or recovery, is assembled into the empty table without an
    exception (unlike the dataset without events), provided the vocabulary
    tables list the three placeholder names. *)
Theorem only_non_actions_gives_empty_table
    (actiontypes results bodyparts : list string) (evs : list Event) :
  evs <> [] ->
  (forall e, In e evs -> is_action_kind e = false) ->
  In "non_action" actiontypes -> In "success" results -> In "foot" bodyparts ->
  assemble actiontypes results bodyparts evs = Ok [].
Proof.
  intros Hne Hall Ha Hr Hb.
  assert (Hprov : exists prov,
             mapM (make_action actiontypes results bodyparts) evs = Ok prov).
  { clear Hne. induction evs as [|e evs IH]; [exists []; reflexivity|].
    destruct (make_action_non_action_kind actiontypes results bodyparts e)
      as (a & Hmk); try assumption; [apply Hall; left; reflexivity|].
    destruct IH as (prov & IH); [intros e' He'; apply Hall; right; exact He'|].
    exists (a :: prov). cbn [mapM]. rewrite Hmk, IH. reflexivity. }
  destruct Hprov as (prov & Hprov).
  destruct (index_In _ _ Ha) as (na & Hna).
  unfold assemble. rewrite Hprov. cbn [bind].
  rewrite sort_values_nonempty.
  - cbn [bind]. rewrite Hna. cbn [bind].
    fold (retained na). rewrite filter_all_false; [reflexivity|].
    intros a Hin. apply (proj1 (stable_sort_In key_leb _ _)) in Hin.
    destruct (mapM_In _ _ _ Hprov _ Hin) as (e & He & Hmk).
    rewrite (retained_is_action_kind _ _ _ _ _ _ Hmk Hna).
    apply Hall, He.
  - intros ->. apply mapM_length in Hprov.
    destruct evs; [congruence | discriminate].
Qed.

Lemma only_non_actions_gives_empty_table_witness :
  sample_assemble [ev_substitution; ev_generic; ev_foul] = Ok [].
Proof.
  apply only_non_actions_gives_empty_table.
  - discriminate.
  - intros e [<-|[<-|[<-|[]]]]; reflexivity.
  - simpl; repeat (first [left; reflexivity | right]).
  - left; reflexivity.
  - left; reflexivity.
Defined.
